(** * MetaSV read-pair extraction ([metasv/extract_pairs.py])

    A shallow embedding of the read-pair extraction script and the
    properties its specification states about it.

    Python values are modelled as follows.
    - [str] (a Python 2 byte string) is [string]; [ord] and [chr] are
      [nat_of_ascii] and [ascii_of_nat].
    - [int] is [Z].
    - a reference that may be [None] is an [option].
    - an exception is a constructor of [exn]; a computation that may raise
      is a [res]; a computation that also performs input or output is an
      [M], which records the observable events in the order they happen.
    - the dictionary [aln_dict] is a [gmap] keyed by query name. *)

From Stdlib Require Import ZArith Ascii String.
From stdpp Require Import gmap strings list fin_maps.

Local Open Scope string_scope.
Local Open Scope list_scope.

(** ** Exceptions and results *)

Inductive exn : Type :=
| IndexError
| ValueError
| AttributeError
| TypeError
| IOError.

Inductive res (A : Type) : Type :=
| Ok (a : A)
| Raise (e : exn).

Arguments Ok {A} a.
Arguments Raise {A} e.

#[global] Instance res_ret : MRet res := fun _ a => Ok a.
#[global] Instance res_bind : MBind res := fun _ _ f r =>
  match r with
  | Ok a => f a
  | Raise e => Raise e
  end.
#[global] Instance res_fmap : FMap res := fun _ _ f r =>
  match r with
  | Ok a => Ok (f a)
  | Raise e => Raise e
  end.

(** ** Strings *)

(** The newline character of the format strings. *)
Definition nl : string := String (ascii_of_nat 10) "".

(** [str.upper()] on a byte string (C locale): only [a]..[z] change. *)
Definition upper_char (c : ascii) : ascii :=
  let n := nat_of_ascii c in
  if (97 <=? n)%nat && (n <=? 122)%nat then ascii_of_nat (n - 32) else c.

Fixpoint upper (s : string) : string :=
  match s with
  | EmptyString => EmptyString
  | String c rest => String (upper_char c) (upper rest)
  end.

(** The slice [s[::-1]]. *)
Definition reversed (s : string) : string :=
  string_of_list_ascii (rev (list_ascii_of_string s)).

(** ** The complement table *)

(** [compl_table = [chr(i) for i in xrange(256)]] followed by the four
    assignments at [ord('A')], [ord('C')], [ord('G')] and [ord('T')]. *)
Definition compl_table : list ascii :=
  let t0 := ascii_of_nat <$> seq 0 256 in
  let t1 := <[nat_of_ascii "A" := "T"%char]> t0 in
  let t2 := <[nat_of_ascii "C" := "G"%char]> t1 in
  let t3 := <[nat_of_ascii "G" := "C"%char]> t2 in
  <[nat_of_ascii "T" := "A"%char]> t3.

(** [compl_table[i]]: an index outside the list raises [IndexError]. *)
Definition compl_table_get (i : nat) : res ascii :=
  match compl_table !! i with
  | Some c => Ok c
  | None => Raise IndexError
  end.

(** [compl(seq)]: the characters are looked up from left to right and then
    joined. *)
Fixpoint compl (seq : string) : res string :=
  match seq with
  | EmptyString => Ok EmptyString
  | String i rest =>
      c ← compl_table_get (nat_of_ascii i);
      r ← compl rest;
      Ok (String c r)
  end.

(** ** Alignments *)

(** The attributes of a [pysam.AlignedRead] that the script reads.
    [cigarstring] is [None] for an alignment without CIGAR operations. *)
Record Alignment : Type := {
  qname : string;
  is_read1 : bool;
  is_reverse : bool;
  is_secondary : bool;
  is_proper_pair : bool;
  seq : string;
  qual : string;
  cigarstring : option string;
  tlen : Z
}.

(** A Python reference to an alignment: an object or [None]. *)
Abbreviation pyref := (option Alignment).

(** Reading an attribute of [None] raises [AttributeError]. *)
Definition getattr {A : Type} (r : pyref) (f : Alignment → A) : res A :=
  match r with
  | Some a => Ok (f a)
  | None => Raise AttributeError
  end.

Definition get_sequence_quality (aln : pyref) : res (string * string) :=
  rev_flag ← getattr aln is_reverse;
  if negb rev_flag then
    s ← getattr aln seq;
    q ← getattr aln qual;
    Ok (upper s, q)
  else
    s ← getattr aln seq;
    c ← compl (upper s);
    q ← getattr aln qual;
    Ok (reversed c, reversed q).

(** ** Extraction predicates *)

(** Python's short-circuit [and], [or] and [not] on boolean results. *)
Definition py_and (x y : res bool) : res bool :=
  b ← x; if b : bool then y else Ok false.

Definition py_or (x y : res bool) : res bool :=
  b ← x; if b : bool then Ok true else y.

Definition py_not (x : res bool) : res bool := negb <$> x.

(** [r.cigarstring == s]; [None] equals no string. *)
Definition cigarstring_is (r : pyref) (s : string) : res bool :=
  c ← getattr r cigarstring;
  Ok (bool_decide (c = Some s)).

Definition is_all (aln mate : pyref) : res bool :=
  py_and
    (py_and (cigarstring_is aln "100M") (cigarstring_is mate "100M"))
    (py_and (getattr aln is_proper_pair) (getattr mate is_proper_pair)).

Definition all_pair (aln mate : pyref) : res bool := Ok true.

Definition non_perfect (aln mate : pyref) : res bool :=
  py_not
    (py_and (cigarstring_is aln "100M")
       (py_and (cigarstring_is mate "100M")
          (py_and (getattr aln is_proper_pair)
                  (getattr mate is_proper_pair)))).

(** The chained comparison [lo <= abs(t) <= hi]. *)
Definition isize_within (lo hi t : Z) : bool :=
  (lo <=? Z.abs t)%Z && (Z.abs t <=? hi)%Z.

Definition discordant (aln mate : pyref) (isize_min isize_max : Z) : res bool :=
  t ← getattr aln tlen;
  if (t =? 0)%Z then Ok true
  else
    t' ← getattr aln tlen;
    Ok (negb (isize_within isize_min isize_max t')).

Definition discordant_with_normal_orientation
    (aln mate : pyref) (isize_min isize_max : Z) : res bool :=
  t ← getattr aln tlen;
  if (t =? 0)%Z then Ok true
  else
    same ← py_or
      (py_and (getattr aln is_reverse) (getattr mate is_reverse))
      (py_and (py_not (getattr aln is_reverse))
              (py_not (getattr mate is_reverse)));
    if same : bool then Ok false
    else
      t' ← getattr aln tlen;
      Ok (negb (isize_within isize_min isize_max t')).

(** The default bounds of [discordant] and
    [discordant_with_normal_orientation]. *)
Definition default_isize_min : Z := 300.
Definition default_isize_max : Z := 400.

(** ** Observable events and the effect monad *)

Inductive level : Type := INFO | ERROR.

(** The log messages of [extract_read_pairs], with their arguments.
    - [MsgExtracting]: "Extracting reads from %s for region %s with
      padding %d using functions %s"
    - [MsgSkipInterval]: "Skipping read extraction since interval too
      close to chromosome beginning"
    - [MsgBuilding]: "Building mate dictionary from %d reads"
    - [MsgTooMany]: "Too many reads encountered. Skipping read
      extraction."
    - [MsgExamined]: "Examined %d pairs in %g seconds" (the elapsed time is
      not modelled)
    - [MsgCounts]: "Extraction counts %s" *)
Inductive message : Type :=
| MsgExtracting (bamname region : string) (pad : Z) (names : list string)
| MsgSkipInterval
| MsgBuilding (n : nat)
| MsgTooMany
| MsgExamined (n : nat)
| MsgCounts (counts : list (string * nat)).

(** A file object returned by [open(name, "w")]: [file_id] is the number
    of the [open] call that made it, so that two objects opened on one
    name stay distinct. *)
Record file : Type := { file_id : nat; file_name : string }.

Inductive event : Type :=
| EvLog (l : level) (m : message)
| EvSamfile (bamname : string)
| EvFetch (chrom : string) (start stop : Z)
| EvMate (aln : Alignment)
| EvBamClose
| EvOpen (f : file)
| EvWrite (f : file) (text : string)
| EvClose (f : file).

(** A computation: the events it performed, and its result or the
    exception that ended it. *)
Definition M (A : Type) : Type := (list event * res A)%type.

#[global] Instance M_ret : MRet M := fun _ a => ([], Ok a).
#[global] Instance M_bind : MBind M := fun _ _ f m =>
  match m with
  | (t, Ok a) => let r := f a in ((t ++ r.1), r.2)
  | (t, Raise e) => (t, Raise e)
  end.

(** The computation [m] after the events [t] have happened. *)
Definition after {A : Type} (t : list event) (m : M A) : M A :=
  (t ++ m.1, m.2).

Definition emit (e : event) : M unit := ([e], Ok tt).
Definition lift {A : Type} (r : res A) : M A := ([], r).
Definition log (l : level) (m : message) : M unit := emit (EvLog l m).

(** [try: body except ValueError: handler]. *)
Definition try_except_ValueError {A : Type} (body handler : M A) : M A :=
  match body with
  | (t, Raise ValueError) => ((t ++ handler.1), handler.2)
  | _ => body
  end.

(** ** Writing a read *)

Definition fastq_record (name end_id sequence quality : string) : string :=
  "@" +:+ name +:+ "/" +:+ end_id +:+ nl +:+ sequence +:+ nl +:+ "+" +:+ nl
  +:+ quality +:+ nl.

Definition write_read (fd : file) (aln : pyref) : M unit :=
  r1 ← lift (getattr aln is_read1);
  let end_id := if r1 : bool then "1" else "2" in
  sq ← lift (get_sequence_quality aln);
  name ← lift (getattr aln qname);
  emit (EvWrite fd (fastq_record name end_id sq.1 sq.2)).

(** ** The alignment file *)

(** An opened [pysam.Samfile]: [fetch] over a region and [mate]. *)
Record Bam : Type := {
  bam_fetch : string → Z → Z → res (list Alignment);
  bam_mate : Alignment → res Alignment
}.

(** ** Region strings *)

(** [s.split(sep)] for a one-character separator. *)
Fixpoint split (sep : ascii) (s : string) : list string :=
  match s with
  | EmptyString => [EmptyString]
  | String c rest =>
      if decide (c = sep) then EmptyString :: split sep rest
      else match split sep rest with
           | w :: ws => String c w :: ws
           | [] => [String c EmptyString]
           end
  end.

(** [l[i]] for a non-negative index. *)
Definition index {A : Type} (l : list A) (i : nat) : res A :=
  match l !! i with
  | Some x => Ok x
  | None => Raise IndexError
  end.

(** ** Grouping by query name *)

(** The two-element list [[read1, read2]] stored per query name. *)
Abbreviation slots := (pyref * pyref)%type.

(** [p[i] = a] for [i] in [{0, 1}]. *)
Definition set_slot (p : slots) (i : nat) (a : pyref) : slots :=
  match i with
  | 0 => (a, p.2)
  | _ => (p.1, a)
  end.

(** [p[i]]. *)
Definition get_slot (p : slots) (i : nat) : res pyref :=
  match i with
  | 0 => Ok p.1
  | 1 => Ok p.2
  | _ => Raise IndexError
  end.

(** One iteration of the grouping loop: the entry of [aln.qname] is
    created as [[None, None]] when absent, then its slot is overwritten. *)
Definition group_step (aln_dict : gmap string slots) (aln : Alignment)
    : gmap string slots :=
  let d :=
    if bool_decide (aln_dict !! qname aln = None)
    then <[qname aln := (None, None)]> aln_dict
    else aln_dict in
  alter (fun p => set_slot p (if is_read1 aln then 0 else 1) (Some aln))
        (qname aln) d.

Definition group_by_qname (aln_list : list Alignment) : gmap string slots :=
  foldl group_step ∅ aln_list.

(** ** Mate resolution *)

Definition missing_index (aln_pair : slots) : nat :=
  match aln_pair.1 with
  | None => 0
  | Some _ => match aln_pair.2 with None => 1 | Some _ => 2 end
  end.

(** [bam.mate(read)]; [mate] takes an alignment, not [None]. *)
Definition mate_call (bam : Bam) (read : pyref) : M pyref :=
  match read with
  | Some a => emit (EvMate a);; m ← lift (bam_mate bam a); mret (Some m)
  | None => lift (Raise TypeError)
  end.

(** The body of the loop over [aln_dict.values()]. *)
Definition resolve_pair (bam : Bam) (aln_pairs : list slots) (aln_pair : slots)
    : M (list slots) :=
  let mi := missing_index aln_pair in
  if (mi <? 2)%nat then
    known ← lift (get_slot aln_pair (1 - mi));
    mate ← try_except_ValueError (mate_call bam known) (mret None);
    match mate with
    | Some _ => mret (aln_pairs ++ [set_slot aln_pair mi mate])
    | None => mret aln_pairs
    end
  else mret (aln_pairs ++ [aln_pair]).

Fixpoint resolve_mates (bam : Bam) (values : list slots) (aln_pairs : list slots)
    : M (list slots) :=
  match values with
  | [] => mret aln_pairs
  | aln_pair :: rest =>
      aln_pairs' ← resolve_pair bam aln_pairs aln_pair;
      resolve_mates bam rest aln_pairs'
  end.

(** ** Filtering and writing *)

(** An extraction function: its [__name__] and its behaviour when called
    on the two slots of a pair. *)
Record ExtractFn : Type := {
  fn_name : string;
  fn_call : pyref → pyref → res bool
}.

(** [enumerate(l)], counting from [i]. *)
Fixpoint enumerate_from {A : Type} (i : nat) (l : list A) : list (nat * A) :=
  match l with
  | [] => []
  | x :: rest => (i, x) :: enumerate_from (S i) rest
  end.

Definition fq_name (prefix name suffix : string) : string :=
  prefix +:+ "_" +:+ name +:+ suffix.

(** The list comprehension that opens the two files of every name;
    [next_id] numbers the [open] calls. *)
Fixpoint open_ends (prefix : string) (names : list string) (next_id : nat)
    : M (list (file * file)) :=
  match names with
  | [] => mret []
  | name :: rest =>
      let f1 := {| file_id := next_id;
                   file_name := fq_name prefix name "_1.fq" |} in
      let f2 := {| file_id := S next_id;
                   file_name := fq_name prefix name "_2.fq" |} in
      emit (EvOpen f1);;
      emit (EvOpen f2);;
      ends ← open_ends prefix rest (S (S next_id));
      mret ((f1, f2) :: ends)
  end.

(** The inner loop over [enumerate(extract_fns)] for one pair. *)
Fixpoint filter_pair (ends : list (file * file)) (first second : pyref)
    (fns : list (nat * ExtractFn)) (selected_pair_counts : list nat)
    : M (list nat) :=
  match fns with
  | [] => mret selected_pair_counts
  | (fn_index, extract_fn) :: rest =>
      keep ← lift (fn_call extract_fn first second);
      counts ←
        (if keep : bool then
           e1 ← lift (index ends fn_index);
           write_read e1.1 first;;
           e2 ← lift (index ends fn_index);
           write_read e2.2 second;;
           c ← lift (index selected_pair_counts fn_index);
           mret (<[fn_index := (c + 1)%nat]> selected_pair_counts)
         else mret selected_pair_counts);
      filter_pair ends first second rest counts
  end.

(** The loop [for first, second in aln_pairs]. *)
Fixpoint filter_pairs (ends : list (file * file)) (fns : list ExtractFn)
    (aln_pairs : list slots) (selected_pair_counts : list nat)
    : M (list nat) :=
  match aln_pairs with
  | [] => mret selected_pair_counts
  | (first, second) :: rest =>
      counts ← filter_pair ends first second (enumerate_from 0 fns)
                 selected_pair_counts;
      filter_pairs ends fns rest counts
  end.

Fixpoint close_ends (ends : list (file * file)) : M unit :=
  match ends with
  | [] => mret tt
  | (end1, end2) :: rest =>
      emit (EvClose end1);;
      emit (EvClose end2);;
      close_ends rest
  end.

(** Everything from the opening of the output files to the return. *)
Definition write_pairs (prefix : string) (extract_fns : list ExtractFn)
    (aln_pairs : list slots) : M (list ((string * string) * nat)) :=
  let extract_fn_names := fn_name <$> extract_fns in
  let selected_pair_counts := replicate (length extract_fn_names) 0%nat in
  ends ← open_ends prefix extract_fn_names 0;
  counts ← filter_pairs ends extract_fns aln_pairs selected_pair_counts;
  close_ends ends;;
  log INFO (MsgExamined (length aln_pairs));;
  log INFO (MsgCounts (zip extract_fn_names counts));;
  mret (zip ((fun e : file * file => (file_name e.1, file_name e.2)) <$> ends)
            counts).

(** ** The extraction *)

Section ExtractReadPairs.

(** Python's [int] on a string; it raises [ValueError] on a string that
    is no integer literal. *)
Variable int : string → res Z.

(** [pysam.Samfile(name, "rb")]: the alignment file behind a name. *)
Variable Samfile : string → res Bam.

(** [dict.values()]: the values of the dictionary, each entry once, in
    an order the language leaves open. *)
Variable dict_values : gmap string slots → list slots.

(** [chr_name], [chr_start] and [chr_end] of a region string
    [chr:start-end] and a padding. *)
Definition region_bounds (region : string) (pad : Z) : res (string * Z * Z) :=
  chr_name ← index (split ":" region) 0;
  r1 ← index (split ":" region) 1;
  s ← index (split "-" r1) 0;
  start ← int s;
  let chr_start := (start - pad)%Z in
  r2 ← index (split ":" region) 1;
  e ← index (split "-" r2) 1;
  stop ← int e;
  let chr_end := (stop + pad)%Z in
  Ok (chr_name, chr_start, chr_end).

(** The alignments read from the interval: none, with an error message,
    when the padded start is negative. *)
Definition read_region (bam : Bam) (chr_name : string) (chr_start chr_end : Z)
    : M (list Alignment) :=
  if (chr_start <? 0)%Z then
    log ERROR MsgSkipInterval;;
    mret []
  else
    emit (EvFetch chr_name chr_start chr_end);;
    alns ← lift (bam_fetch bam chr_name chr_start chr_end);
    mret (filter (fun aln : Alignment => is_secondary aln = false) alns).

(** The pairs to examine: none when the dictionary has more entries
    than [max_read_pairs]. *)
Definition build_pairs (bam : Bam) (aln_list : list Alignment)
    (max_read_pairs : Z) : M (list slots) :=
  let aln_dict := group_by_qname aln_list in
  if (Z.of_nat (size aln_dict) <=? max_read_pairs)%Z then
    log INFO (MsgBuilding (length aln_list));;
    resolve_mates bam (dict_values aln_dict) []
  else
    log INFO MsgTooMany;;
    mret [].

Definition extract_read_pairs (bamname region prefix : string)
    (extract_fns : list ExtractFn) (pad max_read_pairs : Z)
    : M (list ((string * string) * nat)) :=
  let extract_fn_names := fn_name <$> extract_fns in
  log INFO (MsgExtracting bamname region pad extract_fn_names);;
  bounds ← lift (region_bounds region pad);
  let '(chr_name, chr_start, chr_end) := bounds in
  emit (EvSamfile bamname);;
  bam ← lift (Samfile bamname);
  aln_list ← read_region bam chr_name chr_start chr_end;
  aln_pairs ← build_pairs bam aln_list max_read_pairs;
  emit EvBamClose;;
  write_pairs prefix extract_fns aln_pairs.

End ExtractReadPairs.

(** ** Reading a trace *)

#[global] Instance file_eq_dec : EqDecision file.
Proof. solve_decision. Defined.

Definition fetches (tr : list event) : list (string * Z * Z) :=
  omap (fun e => match e with
                 | EvFetch c s e => Some (c, s, e)
                 | _ => None
                 end) tr.

Definition mate_lookups (tr : list event) : list Alignment :=
  omap (fun e => match e with EvMate a => Some a | _ => None end) tr.

Definition writes (tr : list event) : list (file * string) :=
  omap (fun e => match e with EvWrite f text => Some (f, text) | _ => None end)
       tr.

Definition opened (tr : list event) : list file :=
  omap (fun e => match e with EvOpen f => Some f | _ => None end) tr.

Definition closed (tr : list event) : list file :=
  omap (fun e => match e with EvClose f => Some f | _ => None end) tr.

Definition logged (tr : list event) : list (level * message) :=
  omap (fun e => match e with EvLog l m => Some (l, m) | _ => None end) tr.

(** The texts written through one file object, in order. *)
Definition written_to (f : file) (tr : list event) : list string :=
  (filter (fun w : file * string => w.1 = f) (writes tr)).*2.

(** ** Reference definitions

    The notions the properties are stated with, written independently of
    the script. *)

(** The Watson-Crick complement of an upper-case base; any other character
    is its own complement. *)
Definition complement_base (c : ascii) : ascii :=
  if decide (c = "A"%char) then "T"%char
  else if decide (c = "C"%char) then "G"%char
  else if decide (c = "G"%char) then "C"%char
  else if decide (c = "T"%char) then "A"%char
  else c.

(** The complemented bases in reverse order. *)
Definition reverse_complement (s : string) : string :=
  string_of_list_ascii (rev (complement_base <$> list_ascii_of_string s)).

(** The record [write_read] is to produce for an alignment. *)
Definition read_record (aln : Alignment) : string :=
  fastq_record (qname aln)
    (if is_read1 aln then "1" else "2")
    (if is_reverse aln then reverse_complement (upper (seq aln))
     else upper (seq aln))
    (if is_reverse aln then string_of_list_ascii (rev (list_ascii_of_string (qual aln)))
     else qual aln).

(** Both slots of a pair hold an alignment. *)
Definition both_filled (p : slots) : Prop := is_Some p.1 ∧ is_Some p.2.

(** Exactly one slot of a pair holds an alignment, namely [a]. *)
Definition only_slot (p : slots) (a : Alignment) : Prop :=
  p = (Some a, None) ∨ p = (None, Some a).

(** What every entry of the dictionary satisfies: a slot is filled, and
    the alignments in the slots bear the query name of the entry. *)
Definition entry_ok (q : string) (p : slots) : Prop :=
  (is_Some p.1 ∨ is_Some p.2)
  ∧ (∀ a : Alignment, p.1 = Some a → qname a = q)
  ∧ (∀ a : Alignment, p.2 = Some a → qname a = q).

(** The alignment a mate lookup is made for: the one alignment of a pair
    with an empty slot. *)
Definition lookup_argument (p : slots) : option Alignment :=
  match p with
  | (Some a, None) => Some a
  | (None, Some b) => Some b
  | _ => None
  end.

(** The pair kept for a dictionary entry: the entry when it is complete,
    the entry with the looked-up mate in its empty slot when the lookup
    succeeds, and nothing otherwise. *)
Definition resolved_pair (bam : Bam) (p : slots) : option slots :=
  match p with
  | (Some a, Some b) => Some p
  | (Some a, None) =>
      match bam_mate bam a with
      | Ok m => Some (Some a, Some m)
      | Raise _ => None
      end
  | (None, Some b) =>
      match bam_mate bam b with
      | Ok m => Some (Some m, Some b)
      | Raise _ => None
      end
  | (None, None) => None
  end.

(** The mate returned for a read bears the query name of the read. *)
Definition mate_keeps_qname (bam : Bam) : Prop :=
  ∀ a m : Alignment, bam_mate bam a = Ok m → qname m = qname a.

(** An alignment held by a pair. *)
Definition in_pair (x : Alignment) (p : slots) : Prop :=
  p.1 = Some x ∨ p.2 = Some x.

(** The query names of a list of alignments, each once. *)
Definition distinct_qnames (alns : list Alignment) : list string :=
  remove_dups (qname <$> alns).

(** The two file names of an extraction function. *)
Definition output_names (prefix : string) (fn : ExtractFn) : string * string :=
  (fq_name prefix (fn_name fn) "_1.fq", fq_name prefix (fn_name fn) "_2.fq").

(** An extraction function that returns a boolean on every two
    alignments. *)
Definition returns_bool (fn : ExtractFn) : Prop :=
  ∀ a b : Alignment, ∃ v : bool, fn_call fn (Some a) (Some b) = Ok v.

(** A lookup that fails does so with [ValueError]. *)
Definition mate_raises_only_ValueError (bam : Bam) : Prop :=
  ∀ (a : Alignment) (e : exn), bam_mate bam a = Raise e → e = ValueError.

(** A pair with both slots filled. *)
Definition slots_of (ab : Alignment * Alignment) : slots :=
  (Some ab.1, Some ab.2).

(** The extraction function returns true on the pair. *)
Definition selects (fn : ExtractFn) (ab : Alignment * Alignment) : bool :=
  match fn_call fn (Some ab.1) (Some ab.2) with
  | Ok true => true
  | _ => false
  end.

(** The file objects of the extraction functions when the first is opened
    by [open] call number [k]. *)
Definition output_files_from (k : nat) (prefix : string) (fns : list ExtractFn)
    : list (file * file) :=
  imap (fun i fn =>
          ({| file_id := k + 2 * i; file_name := (output_names prefix fn).1 |},
           {| file_id := k + 2 * i + 1;
              file_name := (output_names prefix fn).2 |})) fns.

Definition output_files (prefix : string) (fns : list ExtractFn)
    : list (file * file) :=
  output_files_from 0 prefix fns.

(** The two records a pair adds to the files of a function that selects
    it. *)
Definition channel_writes (ab : Alignment * Alignment)
    (ch : (file * file) * ExtractFn) : list event :=
  if selects ch.2 ab
  then [EvWrite ch.1.1 (read_record ab.1); EvWrite ch.1.2 (read_record ab.2)]
  else [].

Definition pair_writes (channels : list ((file * file) * ExtractFn))
    (ab : Alignment * Alignment) : list event :=
  channels ≫= channel_writes ab.

(** The number of pairs a function selects. *)
Definition selected_count (fn : ExtractFn) (reads : list (Alignment * Alignment))
    : nat :=
  length (filter (fun ab => selects fn ab = true) reads).

Definition open_events (ends : list (file * file)) : list event :=
  ends ≫= fun e => [EvOpen e.1; EvOpen e.2].

Definition close_events (ends : list (file * file)) : list event :=
  ends ≫= fun e => [EvClose e.1; EvClose e.2].

(** The count of a function after a pair has been examined. *)
Definition bump (ab : Alignment * Alignment) (c : nat) (fn : ExtractFn) : nat :=
  if selects fn ab then c + 1 else c.

(** What the filter-and-emit stage may do: open and close files, log,
    and write the record of an alignment held by one of its pairs. *)
Definition emit_event_ok (aln_pairs : list slots) (ev : event) : Prop :=
  match ev with
  | EvWrite _ text =>
      ∃ (p : slots) (x : Alignment),
        p ∈ aln_pairs ∧ in_pair x p ∧ text = read_record x
  | EvOpen _ | EvClose _ => True
  | EvLog l m => l = INFO ∧ m ≠ MsgTooMany ∧ ∀ n, m ≠ MsgBuilding n
  | _ => False
  end.

(** The alignments the region reader hands on. *)
Definition region_reads (chr_start : Z) (alns : list Alignment) : list Alignment :=
  if (chr_start <? 0)%Z then []
  else filter (fun aln : Alignment => is_secondary aln = false) alns.

(** The two file objects of every channel, in the order they are opened. *)
Definition files_of (ends : list (file * file)) : list file :=
  ends ≫= fun e => [e.1; e.2].

(** An event that touches no output file. *)
Definition no_output (ev : event) : Prop :=
  match ev with
  | EvWrite _ _ | EvOpen _ | EvClose _ => False
  | _ => True
  end.

(** ** The provided extraction functions as values *)

Definition all_pair_fn : ExtractFn :=
  {| fn_name := "all_pair"; fn_call := all_pair |}.

Definition non_perfect_fn : ExtractFn :=
  {| fn_name := "non_perfect"; fn_call := non_perfect |}.

(** [partial(discordant, isize_min=lo, isize_max=hi)] after
    [update_wrapper], which gives it the name of [discordant]. *)
Definition discordant_fn (lo hi : Z) : ExtractFn :=
  {| fn_name := "discordant";
     fn_call := fun aln mate => discordant aln mate lo hi |}.

(** ** A small alignment file

    Four read pairs on [chr1]: one inside the insert-size window, one
    outside it, one whose mate cannot be looked up, and one with template
    length 0 whose first read lies outside the fetched interval.  A
    secondary alignment of the first pair is also present. *)

Definition mk_read (name : string) (first reverse : bool) (bases quals : string)
    (t : Z) : Alignment :=
  {| qname := name; is_read1 := first; is_reverse := reverse;
     is_secondary := false; is_proper_pair := true;
     seq := bases; qual := quals; cigarstring := Some "4M"; tlen := t |}.

Definition in_1 : Alignment := mk_read "in" true false "ACGT" "IIHG" 350.
Definition in_2 : Alignment := mk_read "in" false true "aCGN" "ABCD" (-350).
Definition in_sec : Alignment :=
  {| qname := "in"; is_read1 := true; is_reverse := false;
     is_secondary := true; is_proper_pair := false;
     seq := "TTTT"; qual := "####"; cigarstring := None; tlen := 0 |}.
Definition out_1 : Alignment := mk_read "out" true false "GGCA" "FFFF" 900.
Definition out_2 : Alignment := mk_read "out" false true "TTGA" "EEEE" (-900).
Definition lost_1 : Alignment := mk_read "lost" true false "CCCC" "DDDD" 320.
Definition zero_1 : Alignment := mk_read "zero" true false "AAAA" "CCCC" 0.
Definition zero_2 : Alignment := mk_read "zero" false true "GATC" "BBBB" 0.

Definition sample_alns : list Alignment :=
  [in_1; in_sec; out_1; in_2; lost_1; out_2; zero_2].

Definition sample_bam : Bam :=
  {| bam_fetch := fun chrom start stop =>
       if bool_decide (chrom = "chr1") then Ok sample_alns
       else Raise ValueError;
     bam_mate := fun read =>
       if bool_decide (qname read = "zero") then Ok zero_1
       else Raise ValueError |}.

Definition sample_Samfile (bamname : string) : res Bam :=
  if bool_decide (bamname = "sample.bam") then Ok sample_bam
  else Raise IOError.

(** A reading of [int] on strings of decimal digits, which is all the
    sample regions contain. *)
Fixpoint decimal_digits (acc : Z) (s : string) : res Z :=
  match s with
  | EmptyString => Ok acc
  | String c rest =>
      match Ascii.is_nat c with
      | Some d => decimal_digits (10 * acc + Z.of_nat d)%Z rest
      | None => Raise ValueError
      end
  end.

Definition sample_int (s : string) : res Z :=
  match s with
  | EmptyString => Raise ValueError
  | _ => decimal_digits 0 s
  end.

(** The values in the order of [map_to_list]. *)
Definition sample_dict_values (d : gmap string slots) : list slots :=
  (map_to_list d).*2.

Definition sample_fns : list ExtractFn := [discordant_fn 300 400; all_pair_fn].

(** The extraction of [chr1:100-200] from the sample file. *)
Definition sample_run (pad max_read_pairs : Z)
    : M (list ((string * string) * nat)) :=
  extract_read_pairs sample_int sample_Samfile sample_dict_values
    "sample.bam" "chr1:100-200" "out" sample_fns pad max_read_pairs.

(** ** Keeping reads by mapping

    [is_clipped_both], [keep_read] and [keep_pair] read three more
    attributes of a [pysam.AlignedRead], and none of those of
    [Alignment]. *)

(** [cigar] is [None] for a read without CIGAR operations and otherwise
    the list of its [(operation, length)] tuples; [pos] is the leftmost
    mapped position and [mapq] the mapping quality. *)
Record Mapping : Type := {
  cigar : option (list (Z * Z));
  mapq : Z;
  pos : Z
}.

(** Reading an attribute of a mapping reference; [None] has none. *)
Definition mapping_attr {A : Type} (r : option Mapping) (f : Mapping → A)
    : res A :=
  match r with
  | Some m => Ok (f m)
  | None => Raise AttributeError
  end.

(** [l[-1]]. *)
Definition index_last {A : Type} (l : list A) : res A :=
  match last l with
  | Some x => Ok x
  | None => Raise IndexError
  end.

(** [element[0] == 4 or element[0] == 5], where [element] is the indexing
    [aln.cigar[i]], done anew for each comparison that is made. *)
Definition is_clip (element : res (Z * Z)) : res bool :=
  py_or (op ← element; Ok (bool_decide (op.1 = 4%Z)))
        (op ← element; Ok (bool_decide (op.1 = 5%Z))).

Definition is_clipped_both (aln : option Mapping) : res bool :=
  c ← mapping_attr aln cigar;
  match c with
  | None => Ok true
  | Some ops =>
      clipped_left ← is_clip (index ops 0);
      clipped_right ← is_clip (index_last ops);
      Ok (clipped_left && clipped_right)
  end.

Definition keep_read (aln : option Mapping) (aln_chr chromosome : string)
    (start stop : Z) : res bool :=
  py_and (Ok (bool_decide (aln_chr = chromosome)))
    (py_and (py_not (is_clipped_both aln))
       (py_and (q ← mapping_attr aln mapq; Ok (40 <=? q)%Z)
               (p ← mapping_attr aln pos;
                Ok ((start <=? p)%Z && (p <? stop)%Z)))).

Definition keep_pair (aln mate : option Mapping)
    (aln_chr mate_chr chromosome : string) (start stop : Z) : res bool :=
  k1 ← keep_read aln aln_chr chromosome start stop;
  if k1 : bool then Ok true
  else
    k2 ← keep_read mate mate_chr chromosome start stop;
    if k2 : bool then Ok true else Ok false.

(** ** The command line

    The values [argparse] hands to the script: the three required
    options, the chosen extraction function, which [argparse] restricts to
    [all_pair], [non_perfect] and [discordant], and the integer options. *)
Record Args : Type := {
  args_bam : string;
  args_region : string;
  args_prefix : string;
  args_extract_fn : string;
  args_pad : Z;
  args_isize_min : Z;
  args_isize_max : Z;
  args_max_read_pairs : Z
}.

(** The defaults of [--isize_min] and [--isize_max]. *)
Definition cli_default_isize_min : Z := 200.
Definition cli_default_isize_max : Z := 500.

(** The [if]/[elif]/[else] that picks the extraction function. *)
Definition main_extract_fn (args : Args) : ExtractFn :=
  if bool_decide (args_extract_fn args = "all_pair") then all_pair_fn
  else if bool_decide (args_extract_fn args = "non_perfect") then non_perfect_fn
  else discordant_fn (args_isize_min args) (args_isize_max args).

(** The script run on parsed arguments: one extraction with the chosen
    function; the returned list is not used. *)
Definition main (int : string → res Z) (Samfile : string → res Bam)
    (dict_values : gmap string slots → list slots) (args : Args) : M unit :=
  extract_read_pairs int Samfile dict_values
    (args_bam args) (args_region args) (args_prefix args)
    [main_extract_fn args] (args_pad args) (args_max_read_pairs args);;
  mret tt.

(** ** More reference definitions *)

(** The number of newline characters of a string. *)
Fixpoint newlines (s : string) : nat :=
  match s with
  | EmptyString => 0
  | String c rest =>
      (if decide (c = ascii_of_nat 10) then 1 else 0) + newlines rest
  end.

(** The alignment with another sequence and quality string. *)
Definition with_seq_qual (aln : Alignment) (s q : string) : Alignment :=
  {| qname := qname aln; is_read1 := is_read1 aln;
     is_reverse := is_reverse aln; is_secondary := is_secondary aln;
     is_proper_pair := is_proper_pair aln;
     seq := s; qual := q;
     cigarstring := cigarstring aln; tlen := tlen aln |}.

(** The CIGAR operations 4 (soft clip) and 5 (hard clip). *)
Definition clip_operation (op : Z) : bool :=
  bool_decide (op = 4%Z ∨ op = 5%Z).

(** A non-empty list of CIGAR operations whose first and last operations
    are clips. *)
Definition clipped_at_both_ends (ops : list (Z * Z)) : Prop :=
  ∃ (first : Z * Z) (rest : list (Z * Z)),
    ops = first :: rest
    ∧ clip_operation first.1 = true
    ∧ clip_operation (default first (last rest)).1 = true.

(** The string holds the character. *)
Fixpoint has_char (c : ascii) (s : string) : bool :=
  match s with
  | EmptyString => false
  | String x rest => bool_decide (x = c) || has_char c rest
  end.

(** The last alignment of a list that bears a query name and is, or is
    not, the first read of its pair. *)
Definition last_read (first : bool) (q : string) (l : list Alignment)
    : option Alignment :=
  last (filter (fun a => qname a = q ∧ is_read1 a = first) l).

(** An event of the reading stages: a log entry, the fetch, a mate
    lookup. *)
Definition reading_event (ev : event) : Prop :=
  match ev with
  | EvLog _ _ | EvFetch _ _ _ | EvMate _ => True
  | _ => False
  end.

Definition log_event (ev : event) : Prop :=
  match ev with
  | EvLog _ _ => True
  | _ => False
  end.

(** A write through one of the given file objects. *)
Definition write_to_one_of (files : list file) (ev : event) : Prop :=
  match ev with
  | EvWrite f _ => f ∈ files
  | _ => False
  end.

(** The command line
    [--bam sample.bam --region chr1:100-200 --prefix out
     --extract_fn discordant] with the defaults of the other options and a
    ceiling of 10 pairs. *)
Definition sample_args : Args :=
  {| args_bam := "sample.bam"; args_region := "chr1:100-200";
     args_prefix := "out"; args_extract_fn := "discordant";
     args_pad := 0; args_isize_min := cli_default_isize_min;
     args_isize_max := cli_default_isize_max; args_max_read_pairs := 10 |}.

(** * Properties *)

(** ** The effect monad *)

Lemma bind_Ok {A B : Type} (m : M A) (f : A → M B) (t : list event) (a : A) :
  m = (t, Ok a) → m ≫= f = ((t ++ (f a).1)%list, (f a).2).
Proof. intros ->. reflexivity. Qed.

Lemma bind_Raise {A B : Type} (m : M A) (f : A → M B) (t : list event) (e : exn) :
  m = (t, Raise e) → m ≫= f = (t, Raise e).
Proof. intros ->. reflexivity. Qed.

Lemma bind_pair_Ok {A B : Type} (t : list event) (a : A) (f : A → M B) :
  (t, Ok a) ≫= f = after t (f a).
Proof. reflexivity. Qed.

Lemma bind_pair_Raise {A B : Type} (t : list event) (e : exn) (f : A → M B) :
  (t, Raise e) ≫= f = (t, Raise e).
Proof. reflexivity. Qed.

Lemma lift_Ok_bind {A B : Type} (a : A) (f : A → M B) :
  lift (Ok a) ≫= f = f a.
Proof. unfold lift. rewrite bind_pair_Ok. unfold after. by destruct (f a). Qed.

Lemma mret_bind {A B : Type} (a : A) (f : A → M B) :
  mret a ≫= f = f a.
Proof. apply (lift_Ok_bind a f). Qed.

Lemma emit_bind {B : Type} (ev : event) (f : unit → M B) :
  emit ev ≫= f = after [ev] (f tt).
Proof. reflexivity. Qed.

Lemma after_pair {A : Type} (t t' : list event) (r : res A) :
  after t (t', r) = (t ++ t', r).
Proof. reflexivity. Qed.

Lemma after_after {A : Type} (t t' : list event) (m : M A) :
  after t (after t' m) = after (t ++ t') m.
Proof. unfold after. cbn. by rewrite app_assoc. Qed.

Lemma after_nil {A : Type} (m : M A) : after [] m = m.
Proof. by destruct m. Qed.

Lemma after_bind {A B : Type} (t : list event) (m : M A) (f : A → M B) :
  after t m ≫= f = after t (m ≫= f).
Proof.
  destruct m as [t' [a|e]]; unfold after; cbn; by rewrite ?app_assoc.
Qed.

(** One step of a computation whose next action is known. *)
Ltac run_step :=
  first [ rewrite lift_Ok_bind | rewrite mret_bind | rewrite emit_bind
        | rewrite after_bind | rewrite bind_pair_Ok
        | rewrite bind_pair_Raise ];
  cbn beta iota.

(** ** The complement table *)

Lemma compl_table_get_base (c : ascii) :
  compl_table_get (nat_of_ascii c) = Ok (complement_base c).
Proof. destruct c as [[] [] [] [] [] [] [] []]; reflexivity. Qed.

Lemma compl_total (s : string) :
  compl s = Ok (string_of_list_ascii (complement_base <$> list_ascii_of_string s)).
Proof.
  induction s as [|c s IH]; [reflexivity|].
  cbn [compl]. rewrite compl_table_get_base, IH. reflexivity.
Qed.

Lemma length_list_ascii_of_string (s : string) :
  length (list_ascii_of_string s) = String.length s.
Proof. induction s; simpl; congruence. Qed.

(** ** Orientation of the written read *)

Lemma get_sequence_quality_read (aln : Alignment) :
  get_sequence_quality (Some aln) =
    Ok (if is_reverse aln
        then (reverse_complement (upper (seq aln)),
              string_of_list_ascii (rev (list_ascii_of_string (qual aln))))
        else (upper (seq aln), qual aln)).
Proof.
  unfold get_sequence_quality. cbn [getattr mbind res_bind].
  destruct (is_reverse aln); cbn [negb]; [|reflexivity].
  rewrite compl_total. cbn [mbind res_bind].
  unfold reversed, reverse_complement.
  rewrite list_ascii_of_string_of_list_ascii. reflexivity.
Qed.

Lemma write_read_record (fd : file) (aln : Alignment) :
  write_read fd (Some aln) = ([EvWrite fd (read_record aln)], Ok tt).
Proof.
  unfold write_read. rewrite get_sequence_quality_read.
  unfold read_record. destruct (is_reverse aln); reflexivity.
Qed.


(** ** The extraction predicates *)

Lemma py_and_assoc (x y z : res bool) :
  py_and (py_and x y) z = py_and x (py_and y z).
Proof. by destruct x as [[]|]. Qed.

(** On any two references, [None] included, [non_perfect] behaves as the
    negation of [is_all]: same exceptions, negated result. *)
Lemma non_perfect_py_not_is_all (aln mate : pyref) :
  non_perfect aln mate = py_not (is_all aln mate).
Proof. unfold non_perfect, is_all. by rewrite py_and_assoc. Qed.

(** C3. On every two alignments, [is_all] returns a boolean and
    [non_perfect] returns its negation. *)
Theorem non_perfect_negates_is_all (aln mate : Alignment) :
  ∃ b : bool,
    is_all (Some aln) (Some mate) = Ok b
    ∧ non_perfect (Some aln) (Some mate) = Ok (negb b).
Proof.
  rewrite non_perfect_py_not_is_all.
  unfold is_all, py_and, cigarstring_is. cbn [getattr mbind res_bind].
  repeat case_bool_decide; cbn [mbind res_bind];
    destruct (is_proper_pair aln); eauto.
Qed.

Lemma isize_within_spec (lo hi t : Z) :
  isize_within lo hi t = true ↔ (lo ≤ Z.abs t ∧ Z.abs t ≤ hi)%Z.
Proof. unfold isize_within. rewrite andb_true_iff, !Z.leb_le. done. Qed.

(** C4. With the default bounds 300 and 400, [discordant] returns true
    exactly when the template length is 0 or its absolute value is below
    300 or above 400, and false in every other case. *)
Theorem discordant_default_bounds (aln : Alignment) (mate : pyref) :
  ∃ b : bool,
    discordant (Some aln) mate default_isize_min default_isize_max = Ok b
    ∧ (b = true ↔
         (tlen aln = 0 ∨ Z.abs (tlen aln) < 300 ∨ Z.abs (tlen aln) > 400)%Z).
Proof.
  unfold discordant. cbn [getattr mbind res_bind].
  destruct (Z.eqb_spec (tlen aln) 0) as [H0|H0].
  - exists true. naive_solver.
  - eexists; split; [reflexivity|].
    rewrite negb_true_iff, <- not_true_iff_false, isize_within_spec.
    unfold default_isize_min, default_isize_max. lia.
Qed.

(** C5. [discordant_with_normal_orientation] returns true when the
    template length is 0; for another template length it returns false
    when both reads are on the same strand, whatever the insert size, and
    otherwise what [discordant] returns with the same bounds. *)
Theorem discordant_with_normal_orientation_cases
    (aln mate : Alignment) (isize_min isize_max : Z) :
  (tlen aln = 0%Z →
     discordant_with_normal_orientation (Some aln) (Some mate)
       isize_min isize_max = Ok true)
  ∧ (tlen aln ≠ 0%Z → is_reverse aln = is_reverse mate →
     discordant_with_normal_orientation (Some aln) (Some mate)
       isize_min isize_max = Ok false)
  ∧ (tlen aln ≠ 0%Z → is_reverse aln ≠ is_reverse mate →
     discordant_with_normal_orientation (Some aln) (Some mate)
       isize_min isize_max
     = discordant (Some aln) (Some mate) isize_min isize_max).
Proof.
  unfold discordant_with_normal_orientation, discordant.
  cbn [getattr mbind res_bind].
  destruct (Z.eqb_spec (tlen aln) 0) as [H0|H0]; [done|].
  split; [done|]. unfold py_or, py_and, py_not. cbn [fmap res_fmap mbind res_bind].
  split; intros _ Hrev;
    destruct (is_reverse aln), (is_reverse mate); done.
Qed.

(** One pair of the sample file for each of the three cases. *)
Lemma discordant_with_normal_orientation_cases_witness :
  discordant_with_normal_orientation (Some zero_1) (Some zero_2) 300 400
    = Ok true
  ∧ discordant_with_normal_orientation (Some out_1) (Some lost_1) 300 400
    = Ok false
  ∧ discordant_with_normal_orientation (Some out_1) (Some out_2) 300 400
    = discordant (Some out_1) (Some out_2) 300 400.
Proof.
  split; [|split].
  - apply (proj1 (discordant_with_normal_orientation_cases
                    zero_1 zero_2 300 400)).
    reflexivity.
  - apply (proj1 (proj2 (discordant_with_normal_orientation_cases
                           out_1 lost_1 300 400))).
    + vm_compute. discriminate.
    + reflexivity.
  - apply (proj2 (proj2 (discordant_with_normal_orientation_cases
                           out_1 out_2 300 400))).
    + vm_compute. discriminate.
    + vm_compute. discriminate.
Defined.

(** C10. [compl] maps A to T, C to G, G to C and T to A and every other
    character to itself, at every position of every string and without
    ever failing; so the reverse of the complement of a sequence holds
    every character that is none of these four unchanged, at the mirrored
    position. *)
Theorem compl_keeps_other_characters :
  compl "A" = Ok "T" ∧ compl "C" = Ok "G"
  ∧ compl "G" = Ok "C" ∧ compl "T" = Ok "A"
  ∧ (∀ c : ascii,
       c ∉ ["A"; "C"; "G"; "T"]%char →
       compl (String c "") = Ok (String c ""))
  ∧ (∀ s : string,
       ∃ r : string,
         compl s = Ok r
         ∧ String.length r = String.length s
         ∧ ∀ (i : nat) (c : ascii),
             list_ascii_of_string s !! i = Some c →
             ∃ c' : ascii,
               list_ascii_of_string r !! i = Some c'
               ∧ (c = "A"%char → c' = "T"%char)
               ∧ (c = "C"%char → c' = "G"%char)
               ∧ (c = "G"%char → c' = "C"%char)
               ∧ (c = "T"%char → c' = "A"%char)
               ∧ (c ∉ ["A"; "C"; "G"; "T"]%char → c' = c))
  ∧ (∀ (s : string) (i : nat) (c : ascii),
       list_ascii_of_string s !! i = Some c →
       c ∉ ["A"; "C"; "G"; "T"]%char →
       ∃ r : string,
         compl s = Ok r
         ∧ list_ascii_of_string (reversed r) !! (String.length s - 1 - i)%nat
           = Some c).
Proof.
  assert (Hother : ∀ c : ascii,
             c ∉ ["A"; "C"; "G"; "T"]%char → complement_base c = c).
  { intros c Hc. unfold complement_base.
    repeat case_decide; subst; try done; exfalso; apply Hc; set_solver. }
  split; [reflexivity|]. split; [reflexivity|].
  split; [reflexivity|]. split; [reflexivity|].
  split; [|split].
  - intros c Hc. rewrite compl_total. cbn. by rewrite Hother.
  - intros s. eexists. split; [apply compl_total|].
    rewrite list_ascii_of_string_of_list_ascii. split.
    + by rewrite <- !length_list_ascii_of_string,
        list_ascii_of_string_of_list_ascii, length_fmap.
    + intros i c Hi. exists (complement_base c). split.
      * by rewrite list_lookup_fmap, Hi.
      * repeat split; try (intros ->; reflexivity). apply Hother.
  - intros s i c Hi Hc. eexists; split; [apply compl_total|].
    unfold reversed. rewrite !list_ascii_of_string_of_list_ascii.
    assert (Hlt : (i < String.length s)%nat).
    { rewrite <- length_list_ascii_of_string. by eapply lookup_lt_Some. }
    rewrite rev_alt.
    change (rev_append ?l []) with (reverse l).
    rewrite reverse_lookup;
      rewrite ?length_fmap, length_list_ascii_of_string; [|lia].
    replace (String.length s - S (String.length s - 1 - i))%nat with i by lia.
    by rewrite list_lookup_fmap, Hi; cbn; rewrite Hother.
Qed.

(** [N] is kept by [compl], the first base of a longer string is
    complemented, and [N] is found at its mirrored position in a reversed
    complement. *)
Lemma compl_keeps_other_characters_witness :
  compl (String "N" "") = Ok (String "N" "")
  ∧ (∃ r : string,
       compl "GATTACA" = Ok r
       ∧ list_ascii_of_string r !! 0%nat = Some "C"%char)
  ∧ ∃ r : string,
      compl "ANGT" = Ok r
      ∧ list_ascii_of_string (reversed r) !! (String.length "ANGT" - 1 - 1)%nat
        = Some "N"%char.
Proof.
  destruct compl_keeps_other_characters as (_ & _ & _ & _ & Hc & Hall & Hs).
  split; [|split].
  - apply Hc. vm_compute. intros H. inversion H as [|? ? ? H1]; subst.
    inversion H1 as [|? ? ? H2]; subst. inversion H2 as [|? ? ? H3]; subst.
    inversion H3 as [|? ? ? H4]; subst. inversion H4.
  - destruct (Hall "GATTACA") as (r & Hr & _ & Hp).
    exists r. split; [exact Hr|].
    destruct (Hp 0%nat "G"%char eq_refl) as (c' & Hc' & _ & _ & HG & _).
    rewrite Hc', (HG eq_refl). reflexivity.
  - apply (Hs "ANGT" 1%nat "N"%char); [reflexivity|].
    vm_compute. intros H. inversion H as [|? ? ? H1]; subst.
    inversion H1 as [|? ? ? H2]; subst. inversion H2 as [|? ? ? H3]; subst.
    inversion H3 as [|? ? ? H4]; subst. inversion H4.
Defined.

(** ** Grouping by query name *)

(** A grouping step is a single update of the entry of [aln.qname]. *)
Lemma group_step_insert (d : gmap string slots) (aln : Alignment) :
  group_step d aln =
    <[qname aln :=
        set_slot (default (None, None) (d !! qname aln))
                 (if is_read1 aln then 0 else 1) (Some aln)]> d.
Proof.
  unfold group_step. apply map_eq. intros q.
  rewrite lookup_alter, lookup_insert.
  case_bool_decide as Hq.
  - rewrite Hq. cbn [default].
    destruct (decide (qname aln = q)) as [->|Hne]; [|by rewrite lookup_insert_ne].
    by rewrite lookup_insert_eq.
  - destruct (d !! qname aln) as [p|] eqn:Hp; [|done]. cbn [default].
    by destruct (decide (qname aln = q)).
Qed.

Lemma group_step_entry_ok (d : gmap string slots) (aln : Alignment) :
  map_Forall entry_ok d → map_Forall entry_ok (group_step d aln).
Proof.
  intros Hd q p. rewrite group_step_insert.
  destruct (decide (qname aln = q)) as [<-|Hne].
  - rewrite lookup_insert_eq. intros [= <-].
    assert (Hdef : ∀ a, (default (None, None) (d !! qname aln)).1 = Some a
                        ∨ (default (None, None) (d !! qname aln)).2 = Some a
                        → qname a = qname aln).
    { intros a. destruct (d !! qname aln) as [p|] eqn:Hp; cbn [default].
      - destruct (Hd _ _ Hp) as (_ & H1 & H2). naive_solver.
      - cbn. naive_solver. }
    destruct (is_read1 aln); cbn [set_slot fst snd];
      (split; [eauto|split; intros a Ha; naive_solver]).
  - rewrite lookup_insert_ne by done. apply Hd.
Qed.

Lemma foldl_group_step_entry_ok (l : list Alignment) (d : gmap string slots) :
  map_Forall entry_ok d → map_Forall entry_ok (foldl group_step d l).
Proof.
  revert d. induction l as [|a l IH]; intros d Hd; [done|].
  cbn [foldl]. apply IH. by apply group_step_entry_ok.
Qed.

Lemma group_by_qname_entry_ok (l : list Alignment) :
  map_Forall entry_ok (group_by_qname l).
Proof. apply foldl_group_step_entry_ok, map_Forall_empty. Qed.

Lemma foldl_group_step_dom (l : list Alignment) (d : gmap string slots) :
  dom (foldl group_step d l) = dom d ∪ list_to_set (qname <$> l).
Proof.
  revert d. induction l as [|a l IH]; intros d; cbn [foldl fmap list_fmap].
  - set_solver.
  - rewrite IH, group_step_insert, dom_insert_L. set_solver.
Qed.

(** The dictionary has one entry per distinct query name. *)
Lemma size_group_by_qname (l : list Alignment) :
  size (group_by_qname l) = length (distinct_qnames l).
Proof.
  unfold group_by_qname, distinct_qnames.
  rewrite <- size_dom, foldl_group_step_dom, dom_empty_L, (left_id_L ∅ (∪)).
  rewrite <- (size_list_to_set (C := gset string) (remove_dups (qname <$> l)))
    by apply NoDup_remove_dups.
  f_equal. apply set_eq. intros q.
  by rewrite !elem_of_list_to_set, elem_of_remove_dups.
Qed.

(** ** Mate resolution *)

Lemma resolve_pair_run (bam : Bam) (acc : list slots) (p : slots) :
  mate_raises_only_ValueError bam →
  is_Some p.1 ∨ is_Some p.2 →
  resolve_pair bam acc p =
    (EvMate <$> option_list (lookup_argument p),
     Ok (acc ++ option_list (resolved_pair bam p))).
Proof.
  intros Hmate Hp. destruct p as [[a|] [b|]]; cbn in Hp.
  - reflexivity.
  - unfold resolve_pair. cbn.
    destruct (bam_mate bam a) as [m|e] eqn:Hm; cbn.
    + reflexivity.
    + rewrite (Hmate _ _ Hm). cbn. by rewrite app_nil_r.
  - unfold resolve_pair. cbn.
    destruct (bam_mate bam b) as [m|e] eqn:Hm; cbn.
    + reflexivity.
    + rewrite (Hmate _ _ Hm). cbn. by rewrite app_nil_r.
  - destruct Hp as [[? [=]]|[? [=]]].
Qed.

Lemma resolve_mates_run (bam : Bam) (values acc : list slots) :
  mate_raises_only_ValueError bam →
  Forall (fun p : slots => is_Some p.1 ∨ is_Some p.2) values →
  resolve_mates bam values acc =
    (EvMate <$> omap lookup_argument values,
     Ok (acc ++ omap (resolved_pair bam) values)).
Proof.
  intros Hmate Hvalues. revert acc.
  induction Hvalues as [|p values Hp _ IH]; intros acc.
  - cbn. by rewrite app_nil_r.
  - cbn [resolve_mates].
    rewrite (bind_Ok _ _ _ _ (resolve_pair_run bam acc p Hmate Hp)), IH.
    cbn [fst snd omap list_omap].
    destruct (lookup_argument p), (resolved_pair bam p);
      cbn; by rewrite <- ?app_assoc, ?app_nil_r.
Qed.

(** A pair never leaves the resolution with an empty slot, whatever the
    lookups do. *)
Lemma resolve_pair_filled (bam : Bam) (acc : list slots) (p : slots) :
  Forall both_filled acc →
  match (resolve_pair bam acc p).2 with
  | Ok acc' => Forall both_filled acc'
  | Raise _ => True
  end.
Proof.
  intros Hacc. unfold resolve_pair.
  destruct p as [[a|] [b|]]; cbn.
  - apply Forall_app. split; [done|]. repeat constructor; cbn; eauto.
  - destruct (bam_mate bam a) as [m|[]]; cbn; try done.
    apply Forall_app. split; [done|]. repeat constructor; cbn; eauto.
  - destruct (bam_mate bam b) as [m|[]]; cbn; try done.
    apply Forall_app. split; [done|]. repeat constructor; cbn; eauto.
  - done.
Qed.

Lemma resolve_mates_filled (bam : Bam) (values acc : list slots) :
  Forall both_filled acc →
  match (resolve_mates bam values acc).2 with
  | Ok aln_pairs => Forall both_filled aln_pairs
  | Raise _ => True
  end.
Proof.
  revert acc. induction values as [|p values IH]; intros acc Hacc; [done|].
  cbn [resolve_mates].
  pose proof (resolve_pair_filled bam acc p Hacc) as Hp.
  destruct (resolve_pair bam acc p) as [t [acc'|e]]; cbn in *; [|done].
  by apply IH.
Qed.

Lemma build_pairs_filled (dict_values : gmap string slots → list slots)
    (bam : Bam) (aln_list : list Alignment) (max_read_pairs : Z) :
  match (build_pairs dict_values bam aln_list max_read_pairs).2 with
  | Ok aln_pairs => Forall both_filled aln_pairs
  | Raise _ => True
  end.
Proof.
  unfold build_pairs. cbv zeta.
  destruct (Z.of_nat (size (group_by_qname aln_list)) <=? max_read_pairs)%Z.
  - unfold log. rewrite emit_bind. cbn [after snd].
    apply resolve_mates_filled. constructor.
  - constructor.
Qed.

(** ** Filtering and writing *)

Lemma output_files_from_cons (k : nat) (prefix : string) (fn : ExtractFn)
    (fns : list ExtractFn) :
  output_files_from k prefix (fn :: fns) =
    ({| file_id := k; file_name := (output_names prefix fn).1 |},
     {| file_id := S k; file_name := (output_names prefix fn).2 |})
    :: output_files_from (S (S k)) prefix fns.
Proof.
  unfold output_files_from. rewrite imap_cons. f_equal.
  - f_equal; f_equal; lia.
  - apply imap_ext. intros i x _. unfold compose. f_equal; f_equal; lia.
Qed.

Lemma open_ends_run (prefix : string) (fns : list ExtractFn) (k : nat) :
  open_ends prefix (fn_name <$> fns) k =
    (open_events (output_files_from k prefix fns),
     Ok (output_files_from k prefix fns)).
Proof.
  revert k. induction fns as [|fn fns IH]; intros k; [reflexivity|].
  rewrite output_files_from_cons.
  cbn [fmap list_fmap open_ends].
  cbn -[output_files_from]. rewrite IH.
  cbn -[output_files_from]. by rewrite app_nil_r.
Qed.

Lemma close_ends_run (ends : list (file * file)) :
  close_ends ends = (close_events ends, Ok tt).
Proof.
  induction ends as [|[e1 e2] ends IH]; [reflexivity|].
  cbn [close_ends]. cbn. rewrite IH. reflexivity.
Qed.

Lemma length_output_files_from (k : nat) (prefix : string) (fns : list ExtractFn) :
  length (output_files_from k prefix fns) = length fns.
Proof. apply length_imap. Qed.

Lemma filter_pair_run (ab : Alignment * Alignment) (fns : list ExtractFn) :
  Forall returns_bool fns →
  ∀ (epre esuf : list (file * file)) (cpre csuf : list nat),
    length epre = length cpre →
    length esuf = length fns →
    length csuf = length fns →
    filter_pair (epre ++ esuf) (Some ab.1) (Some ab.2)
                (enumerate_from (length epre) fns) (cpre ++ csuf) =
      (pair_writes (zip esuf fns) ab,
       Ok (cpre ++ zip_with (bump ab) csuf fns)).
Proof.
  induction 1 as [|fn fns Hfn _ IH]; intros epre esuf cpre csuf Hpre He Hc.
  - by destruct esuf, csuf.
  - destruct esuf as [|e esuf], csuf as [|c csuf]; try done.
    cbn in He, Hc. cbn [enumerate_from filter_pair].
    destruct (Hfn ab.1 ab.2) as [v Hv]. rewrite Hv.
    assert (Hnext :
      ∀ c', filter_pair (epre ++ e :: esuf) (Some ab.1) (Some ab.2)
              (enumerate_from (S (length epre)) fns) (cpre ++ c' :: csuf) =
            (pair_writes (zip esuf fns) ab,
             Ok (cpre ++ c' :: zip_with (bump ab) csuf fns))).
    { intros c'.
      rewrite (cons_middle e), (cons_middle c'), !app_assoc.
      replace (S (length epre)) with (length (epre ++ [e]))
        by (rewrite length_app; cbn; lia).
      rewrite IH; rewrite ?length_app; cbn; try lia.
      by rewrite <- !app_assoc. }
    rewrite Hpre in Hnext |- *.
    unfold pair_writes. cbn [zip zip_with mbind list_bind].
    unfold channel_writes at 1, bump at 1, selects at 1 2. cbn [fst snd].
    rewrite Hv.
    destruct v.
    + unfold index. rewrite !list_lookup_middle by done.
      repeat first [run_step | rewrite write_read_record].
      rewrite insert_app_r_alt by lia.
      replace (length cpre - length cpre) with 0 by lia.
      cbn [insert list_insert]. rewrite Hnext. reflexivity.
    + repeat run_step. rewrite Hnext. reflexivity.
Qed.

Lemma filter_pairs_run (ends : list (file * file)) (fns : list ExtractFn)
    (reads : list (Alignment * Alignment)) (counts : list nat) :
  Forall returns_bool fns →
  length ends = length fns →
  length counts = length fns →
  filter_pairs ends fns (slots_of <$> reads) counts =
    (reads ≫= pair_writes (zip ends fns),
     Ok (foldl (fun cs ab => zip_with (bump ab) cs fns) counts reads)).
Proof.
  intros Hfns He. revert counts.
  induction reads as [|ab reads IH]; intros counts Hc; [reflexivity|].
  cbn [fmap list_fmap filter_pairs slots_of].
  pose proof (filter_pair_run ab fns Hfns [] ends [] counts) as Hrun.
  cbn in Hrun. rewrite (bind_Ok _ _ _ _ (Hrun eq_refl He Hc)).
  rewrite IH by (by rewrite length_zip_with_l_eq).
  reflexivity.
Qed.

Lemma foldl_bump (fns : list ExtractFn) (reads : list (Alignment * Alignment))
    (g : ExtractFn → nat) :
  foldl (fun cs ab => zip_with (bump ab) cs fns) (g <$> fns) reads =
    (fun fn => g fn + selected_count fn reads) <$> fns.
Proof.
  revert g. induction reads as [|ab reads IH]; intros g; cbn [foldl].
  - apply list_fmap_ext. intros _ fn _. unfold selected_count. cbn. lia.
  - rewrite zip_with_fmap_l, zip_with_diag, IH.
    apply list_fmap_ext. intros _ fn _.
    unfold selected_count, bump. rewrite filter_cons.
    destruct (selects fn ab); case_decide; try done; cbn; lia.
Qed.

Lemma foldl_bump_zero (fns : list ExtractFn) (reads : list (Alignment * Alignment)) :
  foldl (fun cs ab => zip_with (bump ab) cs fns)
        (replicate (length fns) 0) reads =
    (fun fn => selected_count fn reads) <$> fns.
Proof.
  replace (replicate (length fns) 0) with ((fun _ : ExtractFn => 0) <$> fns)
    by (clear; induction fns; cbn; congruence).
  rewrite foldl_bump. by apply list_fmap_ext.
Qed.

Lemma zip_fmap_same {A B C : Type} (f : A → B) (g : A → C) (l : list A) :
  zip (f <$> l) (g <$> l) = (fun x => (f x, g x)) <$> l.
Proof. induction l; cbn; congruence. Qed.

Lemma output_files_names (prefix : string) (fns : list ExtractFn) (k : nat) :
  (fun e : file * file => (file_name e.1, file_name e.2))
    <$> output_files_from k prefix fns
  = output_names prefix <$> fns.
Proof.
  revert k. induction fns as [|fn fns IH]; intros k; [done|].
  rewrite output_files_from_cons. cbn -[output_files_from].
  by rewrite IH.
Qed.

(** The stage around its loop: the files are opened before the loop and
    closed after it, then the counts are logged and returned. *)
Lemma write_pairs_around_loop (prefix : string) (fns : list ExtractFn)
    (aln_pairs : list slots) (t : list event) (count : ExtractFn → nat) :
  filter_pairs (output_files prefix fns) fns aln_pairs
               (replicate (length fns) 0) = (t, Ok (count <$> fns)) →
  write_pairs prefix fns aln_pairs =
    (open_events (output_files prefix fns)
     ++ t
     ++ close_events (output_files prefix fns)
     ++ [EvLog INFO (MsgExamined (length aln_pairs));
         EvLog INFO (MsgCounts ((fun fn => (fn_name fn, count fn)) <$> fns))],
     Ok ((fun fn => (output_names prefix fn, count fn)) <$> fns)).
Proof.
  intros Hloop. unfold write_pairs. cbv zeta.
  rewrite open_ends_run. fold (output_files prefix fns). run_step.
  rewrite !length_fmap, Hloop. run_step.
  rewrite close_ends_run. unfold log.
  repeat run_step. rewrite !after_after. unfold mret, M_ret, after. cbn [fst snd].
  rewrite app_nil_r, <- !app_assoc.
  unfold output_files. rewrite output_files_names, !zip_fmap_same.
  reflexivity.
Qed.

(** The filter-and-emit stage on pairs with both slots filled, run with
    extraction functions that return booleans. *)
Lemma write_pairs_run (prefix : string) (fns : list ExtractFn)
    (reads : list (Alignment * Alignment)) :
  Forall returns_bool fns →
  write_pairs prefix fns (slots_of <$> reads) =
    (open_events (output_files prefix fns)
     ++ (reads ≫= pair_writes (zip (output_files prefix fns) fns))
     ++ close_events (output_files prefix fns)
     ++ [EvLog INFO (MsgExamined (length reads));
         EvLog INFO (MsgCounts
           ((fun fn => (fn_name fn, selected_count fn reads)) <$> fns))],
     Ok ((fun fn => (output_names prefix fn, selected_count fn reads)) <$> fns)).
Proof.
  intros Hfns.
  rewrite (write_pairs_around_loop prefix fns (slots_of <$> reads)
             (reads ≫= pair_writes (zip (output_files prefix fns) fns))
             (fun fn => selected_count fn reads)).
  - by rewrite length_fmap.
  - rewrite filter_pairs_run
      by (done || apply length_output_files_from || apply length_replicate).
    by rewrite foldl_bump_zero.
Qed.

(** The stage without a pair: the files are opened and closed and every
    count is 0, whatever the extraction functions are. *)
Lemma write_pairs_nil (prefix : string) (fns : list ExtractFn) :
  write_pairs prefix fns [] =
    (open_events (output_files prefix fns)
     ++ close_events (output_files prefix fns)
     ++ [EvLog INFO (MsgExamined 0);
         EvLog INFO (MsgCounts ((fun fn => (fn_name fn, 0)) <$> fns))],
     Ok ((fun fn => (output_names prefix fn, 0)) <$> fns)).
Proof.
  rewrite (write_pairs_around_loop prefix fns [] [] (fun _ => 0)); [done|].
  cbn [filter_pairs]. unfold mret, M_ret. do 2 f_equal.
  clear. induction fns; cbn; congruence.
Qed.

(** ** Events of a computation *)

Lemma bind_events_Forall {A B : Type} (P : event → Prop) (m : M A) (f : A → M B) :
  Forall P m.1 →
  (∀ a : A, m.2 = Ok a → Forall P (f a).1) →
  Forall P (m ≫= f).1.
Proof.
  destruct m as [t [a|e]]; cbn; intros Ht Hf; [|done].
  apply Forall_app. split; [done|]. by apply Hf.
Qed.

Lemma after_events_Forall {A : Type} (P : event → Prop) (t : list event) (m : M A) :
  Forall P t → Forall P m.1 → Forall P (after t m).1.
Proof. intros. by apply Forall_app. Qed.

Lemma write_read_events (fd : file) (aln : pyref) :
  Forall (fun ev => ∃ x, aln = Some x ∧ ev = EvWrite fd (read_record x))
         (write_read fd aln).1.
Proof.
  destruct aln as [x|]; [|by cbn].
  rewrite write_read_record. repeat constructor. eauto.
Qed.

Lemma filter_pair_events (ends : list (file * file)) (first second : pyref)
    (fns : list (nat * ExtractFn)) (counts : list nat) :
  Forall (fun ev => ∃ fd x, (first = Some x ∨ second = Some x)
                            ∧ ev = EvWrite fd (read_record x))
         (filter_pair ends first second fns counts).1.
Proof.
  revert counts. induction fns as [|[k fn] fns IH]; intros counts; [by cbn|].
  cbn [filter_pair].
  apply bind_events_Forall; [by cbn|]. intros keep _.
  apply bind_events_Forall; [|intros; apply IH].
  destruct keep; [|by cbn].
  apply bind_events_Forall; [by cbn|]. intros e1 _.
  apply bind_events_Forall.
  { eapply Forall_impl; [apply write_read_events|]. naive_solver. }
  intros _ _. apply bind_events_Forall; [by cbn|]. intros e2 _.
  apply bind_events_Forall.
  { eapply Forall_impl; [apply write_read_events|]. naive_solver. }
  intros _ _. apply bind_events_Forall; [by cbn|]. intros c _. by cbn.
Qed.

Lemma filter_pairs_events (ends : list (file * file)) (fns : list ExtractFn)
    (aln_pairs : list slots) (counts : list nat) :
  Forall (emit_event_ok aln_pairs) (filter_pairs ends fns aln_pairs counts).1.
Proof.
  revert counts. induction aln_pairs as [|[first second] ps IH]; intros counts;
    [by cbn|].
  cbn [filter_pairs]. apply bind_events_Forall.
  - eapply Forall_impl; [apply filter_pair_events|].
    intros ev (fd & x & Hx & ->). cbn.
    exists (first, second), x. split; [left|done].
  - intros counts' _. eapply Forall_impl; [apply IH|].
    intros [] Hev; try done. cbn in *.
    destruct Hev as (p & x & Hp & Hx). exists p, x. split; [by right|done].
Qed.

Lemma open_events_ok (aln_pairs : list slots) (ends : list (file * file)) :
  Forall (emit_event_ok aln_pairs) (open_events ends).
Proof. induction ends; by repeat constructor. Qed.

Lemma close_events_ok (aln_pairs : list slots) (ends : list (file * file)) :
  Forall (emit_event_ok aln_pairs) (close_events ends).
Proof. induction ends; by repeat constructor. Qed.

Lemma write_pairs_events (prefix : string) (fns : list ExtractFn)
    (aln_pairs : list slots) :
  Forall (emit_event_ok aln_pairs) (write_pairs prefix fns aln_pairs).1.
Proof.
  unfold write_pairs. cbv zeta. rewrite open_ends_run. run_step.
  apply after_events_Forall; [apply open_events_ok|].
  apply bind_events_Forall; [apply filter_pairs_events|]. intros counts _.
  rewrite close_ends_run. run_step.
  apply after_events_Forall; [apply close_events_ok|].
  unfold log. repeat run_step. rewrite after_after.
  by repeat constructor.
Qed.

Lemma resolve_mates_events (bam : Bam) (values acc : list slots) :
  Forall (fun ev => ∃ a, ev = EvMate a) (resolve_mates bam values acc).1.
Proof.
  revert acc. induction values as [|p values IH]; intros acc; [by cbn|].
  cbn [resolve_mates]. apply bind_events_Forall; [|intros; apply IH].
  unfold resolve_pair. destruct p as [[a|] [b|]]; cbn; try done.
  - destruct (bam_mate bam a) as [m|[]]; cbn; repeat constructor; eauto.
  - destruct (bam_mate bam b) as [m|[]]; cbn; repeat constructor; eauto.
Qed.

(** ** Projections of the events of the stages *)

Lemma writes_app (t1 t2 : list event) : writes (t1 ++ t2) = writes t1 ++ writes t2.
Proof. apply omap_app. Qed.

Lemma mate_lookups_app (t1 t2 : list event) :
  mate_lookups (t1 ++ t2) = mate_lookups t1 ++ mate_lookups t2.
Proof. apply omap_app. Qed.

Lemma fetches_app (t1 t2 : list event) :
  fetches (t1 ++ t2) = fetches t1 ++ fetches t2.
Proof. apply omap_app. Qed.

Lemma opened_app (t1 t2 : list event) : opened (t1 ++ t2) = opened t1 ++ opened t2.
Proof. apply omap_app. Qed.

Lemma closed_app (t1 t2 : list event) : closed (t1 ++ t2) = closed t1 ++ closed t2.
Proof. apply omap_app. Qed.

Lemma logged_app (t1 t2 : list event) : logged (t1 ++ t2) = logged t1 ++ logged t2.
Proof. apply omap_app. Qed.

Lemma open_events_projections (ends : list (file * file)) :
  writes (open_events ends) = [] ∧ mate_lookups (open_events ends) = []
  ∧ fetches (open_events ends) = [] ∧ closed (open_events ends) = []
  ∧ logged (open_events ends) = []
  ∧ opened (open_events ends) = ends ≫= fun e => [e.1; e.2].
Proof.
  induction ends as [|e ends (?&?&?&?&?&IH)]; [done|].
  repeat split; try done. cbn. by rewrite <- IH.
Qed.

Lemma close_events_projections (ends : list (file * file)) :
  writes (close_events ends) = [] ∧ mate_lookups (close_events ends) = []
  ∧ fetches (close_events ends) = [] ∧ opened (close_events ends) = []
  ∧ logged (close_events ends) = []
  ∧ closed (close_events ends) = ends ≫= fun e => [e.1; e.2].
Proof.
  induction ends as [|e ends (?&?&?&?&?&IH)]; [done|].
  repeat split; try done. cbn. by rewrite <- IH.
Qed.

(** ** The stages of the extraction *)

Section Stages.

Variable int : string → res Z.
Variable Samfile : string → res Bam.
Variable dict_values : gmap string slots → list slots.
Hypothesis dict_values_perm :
  ∀ d : gmap string slots, dict_values d ≡ₚ (map_to_list d).*2.

Lemma dict_values_empty : dict_values ∅ = [].
Proof.
  apply Permutation_nil_r. rewrite dict_values_perm.
  by rewrite map_to_list_empty.
Qed.

Lemma dict_values_elem_of (d : gmap string slots) (p : slots) :
  p ∈ dict_values d ↔ ∃ q : string, d !! q = Some p.
Proof.
  rewrite dict_values_perm, list_elem_of_fmap. split.
  - intros ([q p'] & -> & Hin). exists q. by apply elem_of_map_to_list.
  - intros (q & Hq). exists (q, p). split; [done|].
    by apply elem_of_map_to_list.
Qed.

Lemma read_region_negative (bam : Bam) (chrom : string) (chr_start chr_end : Z) :
  (chr_start < 0)%Z →
  read_region bam chrom chr_start chr_end = ([EvLog ERROR MsgSkipInterval], Ok []).
Proof.
  intros Hneg. unfold read_region.
  by destruct (Z.ltb_spec chr_start 0); [|lia].
Qed.

Lemma read_region_fetch (bam : Bam) (chrom : string) (chr_start chr_end : Z)
    (alns : list Alignment) :
  (0 ≤ chr_start)%Z →
  bam_fetch bam chrom chr_start chr_end = Ok alns →
  read_region bam chrom chr_start chr_end =
    ([EvFetch chrom chr_start chr_end],
     Ok (filter (fun aln : Alignment => is_secondary aln = false) alns)).
Proof.
  intros Hpos Hfetch. unfold read_region.
  destruct (Z.ltb_spec chr_start 0); [lia|].
  by rewrite Hfetch.
Qed.

Lemma build_pairs_too_many (bam : Bam) (aln_list : list Alignment)
    (max_read_pairs : Z) :
  (max_read_pairs < Z.of_nat (length (distinct_qnames aln_list)))%Z →
  build_pairs dict_values bam aln_list max_read_pairs =
    ([EvLog INFO MsgTooMany], Ok []).
Proof.
  intros Hmax. unfold build_pairs. cbv zeta. rewrite size_group_by_qname.
  by destruct (Z.leb_spec (Z.of_nat (length (distinct_qnames aln_list)))
                 max_read_pairs); [lia|].
Qed.

Lemma build_pairs_proceeds (bam : Bam) (aln_list : list Alignment)
    (max_read_pairs : Z) :
  (Z.of_nat (length (distinct_qnames aln_list)) ≤ max_read_pairs)%Z →
  build_pairs dict_values bam aln_list max_read_pairs =
    after [EvLog INFO (MsgBuilding (length aln_list))]
      (resolve_mates bam (dict_values (group_by_qname aln_list)) []).
Proof.
  intros Hmax. unfold build_pairs. cbv zeta. rewrite size_group_by_qname.
  destruct (Z.leb_spec (Z.of_nat (length (distinct_qnames aln_list)))
              max_read_pairs); [|lia].
  unfold log. by run_step.
Qed.

Lemma build_pairs_nil (bam : Bam) (max_read_pairs : Z) :
  ∃ m : message,
    build_pairs dict_values bam [] max_read_pairs = ([EvLog INFO m], Ok []).
Proof.
  destruct (Z.le_gt_cases (Z.of_nat (length (distinct_qnames []))) max_read_pairs).
  - rewrite build_pairs_proceeds by done.
    unfold group_by_qname. cbn [foldl]. rewrite dict_values_empty. eauto.
  - rewrite build_pairs_too_many by lia. eauto.
Qed.

(** The dictionary values all have a filled slot. *)
Lemma dict_values_filled (aln_list : list Alignment) :
  Forall (fun p : slots => is_Some p.1 ∨ is_Some p.2)
         (dict_values (group_by_qname aln_list)).
Proof.
  apply Forall_forall. intros p Hp.
  apply dict_values_elem_of in Hp as (q & Hq).
  by destruct (group_by_qname_entry_ok aln_list q p Hq) as (? & _).
Qed.

Lemma build_pairs_run (bam : Bam) (aln_list : list Alignment)
    (max_read_pairs : Z) :
  mate_raises_only_ValueError bam →
  (Z.of_nat (length (distinct_qnames aln_list)) ≤ max_read_pairs)%Z →
  build_pairs dict_values bam aln_list max_read_pairs =
    (EvLog INFO (MsgBuilding (length aln_list))
       :: (EvMate <$> omap lookup_argument
                        (dict_values (group_by_qname aln_list))),
     Ok (omap (resolved_pair bam) (dict_values (group_by_qname aln_list)))).
Proof.
  intros Hmate Hmax. rewrite build_pairs_proceeds by done.
  by rewrite resolve_mates_run by (done || apply dict_values_filled).
Qed.

(** The extraction as the sequence of its stages. *)
Lemma extract_read_pairs_stages (bamname region prefix : string)
    (fns : list ExtractFn) (pad max_read_pairs : Z)
    (chrom : string) (chr_start chr_end : Z) (bam : Bam) :
  region_bounds int region pad = Ok (chrom, chr_start, chr_end) →
  Samfile bamname = Ok bam →
  extract_read_pairs int Samfile dict_values bamname region prefix fns pad
                     max_read_pairs =
    after [EvLog INFO (MsgExtracting bamname region pad (fn_name <$> fns));
           EvSamfile bamname]
      (aln_list ← read_region bam chrom chr_start chr_end;
       aln_pairs ← build_pairs dict_values bam aln_list max_read_pairs;
       after [EvBamClose] (write_pairs prefix fns aln_pairs)).
Proof.
  intros Hbounds Hopen. unfold extract_read_pairs. cbv zeta.
  rewrite Hbounds, Hopen. unfold log. repeat run_step.
  by rewrite after_after.
Qed.

End Stages.

(** ** Runs that extract nothing *)

Section NegativeStart.

Variable int : string → res Z.
Variable Samfile : string → res Bam.
Variable dict_values : gmap string slots → list slots.
Hypothesis dict_values_perm :
  ∀ d : gmap string slots, dict_values d ≡ₚ (map_to_list d).*2.

Variables (bamname region prefix : string) (fns : list ExtractFn).
Variables (pad max_read_pairs : Z).
Variables (chrom : string) (start stop : Z) (bam : Bam).

Hypothesis region_ok :
  region_bounds int region pad = Ok (chrom, (start - pad)%Z, (stop + pad)%Z).
Hypothesis bam_ok : Samfile bamname = Ok bam.

(** C2. When the padded start of the region is negative, the extraction
    logs an error, fetches nothing from the alignment file and looks up no
    mate, examines zero pairs, writes nothing to any output file, and
    returns a count of 0 for every extraction function without raising. *)
Theorem negative_start_extracts_nothing :
  (start - pad < 0)%Z →
  ∃ tr : list event,
    extract_read_pairs int Samfile dict_values bamname region prefix fns pad
                       max_read_pairs
      = (tr, Ok ((fun fn => (output_names prefix fn, 0)) <$> fns))
    ∧ (ERROR, MsgSkipInterval) ∈ logged tr
    ∧ fetches tr = []
    ∧ mate_lookups tr = []
    ∧ (INFO, MsgExamined 0) ∈ logged tr
    ∧ writes tr = [].
Proof.
  intros Hneg.
  rewrite (extract_read_pairs_stages int Samfile dict_values _ _ _ _ _ _
             _ _ _ _ region_ok bam_ok).
  rewrite read_region_negative by done. run_step.
  destruct (build_pairs_nil dict_values dict_values_perm bam max_read_pairs)
    as [m ->].
  run_step. rewrite write_pairs_nil, !after_after, after_pair.
  eexists; split; [reflexivity|].
  destruct (open_events_projections (output_files prefix fns))
    as (Ho1 & Ho2 & Ho3 & _ & Ho5 & _).
  destruct (close_events_projections (output_files prefix fns))
    as (Hc1 & Hc2 & Hc3 & _ & Hc5 & _).
  rewrite !logged_app, !fetches_app, !mate_lookups_app, !writes_app.
  rewrite Ho1, Ho2, Ho3, Ho5, Hc1, Hc2, Hc3, Hc5. cbn.
  repeat split; try done; set_solver.
Qed.

End NegativeStart.

(** ** Lookups per query name *)

Lemma lookup_argument_qname (q : string) (p : slots) (a : Alignment) :
  entry_ok q p → lookup_argument p = Some a → qname a = q.
Proof.
  intros (_ & H1 & H2). destruct p as [[x|] [y|]]; cbn; intros [= <-]; eauto.
Qed.

Lemma lookups_of_other_names (q : string) (l : list (string * slots)) :
  Forall (fun kp => entry_ok kp.1 kp.2) l →
  q ∉ l.*1 →
  filter (fun x => qname x = q) (omap lookup_argument l.*2) = [].
Proof.
  induction 1 as [|[k p] l Hkp _ IH]; intros Hq; [done|].
  cbn in Hq. apply not_elem_of_cons in Hq as [Hne Hq].
  cbn [fmap list_fmap omap list_omap snd].
  destruct (lookup_argument p) as [a|] eqn:Ha; [|by apply IH].
  rewrite filter_cons_False; [by apply IH|].
  rewrite (lookup_argument_qname k p a Hkp Ha). done.
Qed.

Lemma lookups_of_name (q : string) (p : slots) (l : list (string * slots)) :
  Forall (fun kp => entry_ok kp.1 kp.2) l →
  NoDup l.*1 →
  (q, p) ∈ l →
  filter (fun x => qname x = q) (omap lookup_argument l.*2)
    = option_list (lookup_argument p).
Proof.
  induction 1 as [|[k p0] l Hkp Hl IH]; intros Hnd Hin; [by inversion Hin|].
  cbn in Hnd. apply NoDup_cons in Hnd as [Hk Hnd].
  apply elem_of_cons in Hin as [[= <- <-]|Hin].
  - cbn [fmap list_fmap omap list_omap snd option_list].
    destruct (lookup_argument p) as [a|] eqn:Ha.
    + rewrite filter_cons_True by (by eapply lookup_argument_qname).
      by rewrite lookups_of_other_names.
    + by apply lookups_of_other_names.
  - assert (k ≠ q) as Hne.
    { intros ->. apply Hk. apply list_elem_of_fmap. by exists (q, p). }
    cbn [fmap list_fmap omap list_omap snd].
    destruct (lookup_argument p0) as [a|] eqn:Ha; [|by apply IH].
    rewrite filter_cons_False; [by apply IH|].
    by rewrite (lookup_argument_qname k p0 a Hkp Ha).
Qed.

Lemma both_filled_reads (ps : list slots) :
  Forall both_filled ps → ∃ reads, ps = slots_of <$> reads.
Proof.
  induction 1 as [|[[a|] [b|]] ps Hp _ [reads ->]].
  - by exists [].
  - by exists ((a, b) :: reads).
  - destruct Hp as [_ [? [=]]].
  - destruct Hp as [[? [=]] _].
  - destruct Hp as [[? [=]] _].
Qed.

Lemma emit_events_projections (ps : list slots) (t : list event) :
  Forall (emit_event_ok ps) t →
  mate_lookups t = [] ∧ fetches t = []
  ∧ ∀ f text, (f, text) ∈ writes t →
      ∃ (p : slots) (x : Alignment), p ∈ ps ∧ in_pair x p ∧ text = read_record x.
Proof.
  induction 1 as [|ev t Hev _ (IH1 & IH2 & IH3)]; [by repeat split; set_solver|].
  destruct ev; cbn in Hev; try done; repeat split; try done.
  intros f' text'. cbn. rewrite elem_of_cons. intros [[= -> ->]|Hin]; eauto.
Qed.

Section Resolution.

Variable dict_values : gmap string slots → list slots.
Hypothesis dict_values_perm :
  ∀ d : gmap string slots, dict_values d ≡ₚ (map_to_list d).*2.

Lemma lookups_of_entry (aln_list : list Alignment) (q : string) (p : slots) :
  group_by_qname aln_list !! q = Some p →
  filter (fun x => qname x = q)
         (omap lookup_argument (dict_values (group_by_qname aln_list)))
    = option_list (lookup_argument p).
Proof.
  intros Hq.
  assert (Hperm : filter (fun x => qname x = q)
            (omap lookup_argument (dict_values (group_by_qname aln_list)))
          ≡ₚ option_list (lookup_argument p)).
  { rewrite dict_values_perm.
    rewrite (lookups_of_name q p); [done| |apply NoDup_fst_map_to_list
                                          |by apply elem_of_map_to_list].
    apply Forall_forall. intros [k p'] Hin.
    apply elem_of_map_to_list in Hin.
    by apply (group_by_qname_entry_ok aln_list k p'). }
  destruct (lookup_argument p); cbn in *.
  - by apply Permutation_singleton_r.
  - by apply Permutation_nil_r.
Qed.

(** A resolved pair stems from a dictionary entry and, when mates keep
    the query name, holds only alignments of the name of that entry. *)
Lemma resolved_pair_origin (bam : Bam) (aln_list : list Alignment) (p' : slots) :
  p' ∈ omap (resolved_pair bam) (dict_values (group_by_qname aln_list)) →
  ∃ (q : string) (p : slots),
    group_by_qname aln_list !! q = Some p ∧ resolved_pair bam p = Some p'.
Proof.
  intros Hin. apply list_elem_of_omap in Hin as (p & Hp & Hres).
  apply (dict_values_elem_of dict_values dict_values_perm) in Hp as (q & Hq).
  eauto.
Qed.

Lemma resolved_pair_qname (bam : Bam) (q : string) (p p' : slots) (x : Alignment) :
  mate_keeps_qname bam →
  entry_ok q p →
  resolved_pair bam p = Some p' →
  in_pair x p' →
  qname x = q.
Proof.
  intros Hkeep (_ & H1 & H2) Hres Hx.
  destruct p as [[a|] [b|]]; cbn in Hres.
  - injection Hres as <-. destruct Hx as [Hx|Hx]; eauto.
  - destruct (bam_mate bam a) as [m|] eqn:Hm; [|done].
    injection Hres as <-. destruct Hx as [[= <-]|[= <-]]; [eauto|].
    rewrite (Hkeep _ _ Hm). eauto.
  - destruct (bam_mate bam b) as [m|] eqn:Hm; [|done].
    injection Hres as <-. destruct Hx as [[= <-]|[= <-]]; [|eauto].
    rewrite (Hkeep _ _ Hm). eauto.
  - done.
Qed.

End Resolution.

(** ** The files of the channels *)

Lemma written_to_app (f : file) (t1 t2 : list event) :
  written_to f (t1 ++ t2) = written_to f t1 ++ written_to f t2.
Proof. unfold written_to. by rewrite writes_app, filter_app, fmap_app. Qed.

Lemma written_to_no_writes (f : file) (t : list event) :
  writes t = [] → written_to f t = [].
Proof. unfold written_to. by intros ->. Qed.

Lemma written_to_bind {A : Type} (f : file) (g : A → list event) (l : list A) :
  written_to f (l ≫= g) = l ≫= fun x => written_to f (g x).
Proof.
  induction l as [|x l IH]; [done|].
  cbn [mbind list_bind]. by rewrite written_to_app, IH.
Qed.

Lemma output_files_ids (k : nat) (prefix : string) (fns : list ExtractFn) :
  file_id <$> files_of (output_files_from k prefix fns)
    = List.seq k (2 * length fns).
Proof.
  revert k. induction fns as [|fn fns IH]; intros k; [done|].
  rewrite output_files_from_cons. unfold files_of in *.
  cbn [mbind list_bind fst snd app fmap list_fmap file_id].
  rewrite IH. cbn [length].
  replace (2 * S (length fns)) with (S (S (2 * length fns))) by lia.
  reflexivity.
Qed.

Lemma output_files_NoDup (prefix : string) (fns : list ExtractFn) :
  NoDup (files_of (output_files prefix fns)).
Proof.
  apply (NoDup_fmap_1 file_id). unfold output_files.
  rewrite output_files_ids. apply NoDup_seq.
Qed.

Lemma pair_writes_cons (ch : (file * file) * ExtractFn)
    (chs : list ((file * file) * ExtractFn)) (ab : Alignment * Alignment) :
  pair_writes (ch :: chs) ab = channel_writes ab ch ++ pair_writes chs ab.
Proof. reflexivity. Qed.

Lemma written_to_other_channels (f : file)
    (chs : list ((file * file) * ExtractFn)) (ab : Alignment * Alignment) :
  f ∉ files_of chs.*1 →
  written_to f (pair_writes chs ab) = [].
Proof.
  induction chs as [|[e fn] chs IH]; intros Hf; [done|].
  unfold files_of in *. cbn in Hf.
  apply not_elem_of_cons in Hf as [H1 Hf].
  apply not_elem_of_cons in Hf as [H2 Hf].
  rewrite pair_writes_cons, written_to_app, IH by done.
  unfold channel_writes. cbn [fst snd].
  destruct (selects fn ab); [|done].
  unfold written_to. cbn [writes omap list_omap].
  rewrite !filter_cons_False by (cbn; congruence). done.
Qed.

Lemma written_to_channel (chs : list ((file * file) * ExtractFn)) (k : nat)
    (e : file * file) (fn : ExtractFn) (ab : Alignment * Alignment) :
  NoDup (files_of chs.*1) →
  chs !! k = Some (e, fn) →
  written_to e.1 (pair_writes chs ab)
    = (if selects fn ab then [read_record ab.1] else [])
  ∧ written_to e.2 (pair_writes chs ab)
    = (if selects fn ab then [read_record ab.2] else []).
Proof.
  revert k. induction chs as [|[e0 fn0] chs IH]; intros k Hnd Hk; [done|].
  unfold files_of in *. cbn in Hnd.
  apply NoDup_cons in Hnd as [H1 Hnd]. apply NoDup_cons in Hnd as [H2 Hnd].
  apply not_elem_of_cons in H1 as [H12 H1].
  rewrite pair_writes_cons, !written_to_app.
  destruct k as [|k]; cbn in Hk.
  - injection Hk as -> ->.
    rewrite !written_to_other_channels by done. rewrite !app_nil_r.
    unfold channel_writes. cbn [fst snd].
    destruct (selects fn ab); [|done].
    unfold written_to. cbn [writes omap list_omap].
    rewrite filter_cons_True by done.
    rewrite filter_cons_False by (cbn; congruence).
    rewrite filter_cons_False by (cbn; congruence).
    rewrite filter_cons_True by done. done.
  - destruct (IH k Hnd Hk) as [-> ->].
    assert (e.1 ∈ files_of chs.*1 ∧ e.2 ∈ files_of chs.*1) as [He1 He2].
    { unfold files_of. split; apply list_elem_of_bind; exists e;
        (split; [set_solver|]); apply list_elem_of_fmap; exists (e, fn);
        (split; [done|]); by eapply list_elem_of_lookup_2. }
    unfold files_of in *.
    unfold channel_writes. cbn [fst snd].
    destruct (selects fn0 ab); [|done].
    unfold written_to. cbn [writes omap list_omap].
    rewrite !filter_cons_False;
      [done|cbn; intros Heq; first [by rewrite Heq in H1|by rewrite Heq in H2]..].
Qed.

Lemma pair_writes_projections (chs : list ((file * file) * ExtractFn))
    (reads : list (Alignment * Alignment)) :
  opened (reads ≫= pair_writes chs) = []
  ∧ closed (reads ≫= pair_writes chs) = []
  ∧ mate_lookups (reads ≫= pair_writes chs) = [].
Proof.
  assert (Hone : ∀ ab, opened (pair_writes chs ab) = []
                       ∧ closed (pair_writes chs ab) = []
                       ∧ mate_lookups (pair_writes chs ab) = []).
  { intros ab. unfold pair_writes.
    induction chs as [|[e fn] chs (IH1 & IH2 & IH3)]; [done|].
    cbn [mbind list_bind]. rewrite opened_app, closed_app, mate_lookups_app.
    rewrite IH1, IH2, IH3. unfold channel_writes.
    by destruct (selects _ ab). }
  induction reads as [|ab reads (IH1 & IH2 & IH3)]; [done|].
  cbn [mbind list_bind]. rewrite opened_app, closed_app, mate_lookups_app.
  destruct (Hone ab) as (-> & -> & ->). by rewrite IH1, IH2, IH3.
Qed.

Lemma zip_fst_same_length {A B : Type} (l : list A) (k : list B) :
  length l = length k → (zip l k).*1 = l.
Proof. intros. by apply fst_zip; lia. Qed.

Lemma resolved_pair_filled (bam : Bam) (l : list slots) :
  Forall both_filled (omap (resolved_pair bam) l).
Proof.
  apply Forall_forall. intros p' Hin.
  apply list_elem_of_omap in Hin as (p & _ & Hres).
  destruct p as [[a|] [b|]]; cbn in Hres.
  - injection Hres as <-. split; eauto.
  - destruct (bam_mate bam a); [|done]. injection Hres as <-. split; eauto.
  - destruct (bam_mate bam b); [|done]. injection Hres as <-. split; eauto.
  - done.
Qed.

Lemma mate_events_projections (l : list Alignment) :
  writes (EvMate <$> l) = [] ∧ opened (EvMate <$> l) = []
  ∧ closed (EvMate <$> l) = [] ∧ mate_lookups (EvMate <$> l) = l.
Proof.
  induction l as [|a l (?&?&?&IH)]; [done|].
  repeat split; try done. cbn. by rewrite <- IH at 2.
Qed.

Lemma no_output_projections (t : list event) :
  Forall no_output t → writes t = [] ∧ opened t = [] ∧ closed t = [].
Proof.
  induction 1 as [|ev t Hev _ (?&?&?)]; [done|]. by destruct ev.
Qed.

Lemma mate_events_no_output (l : list Alignment) :
  Forall no_output (EvMate <$> l).
Proof. induction l; by constructor. Qed.

(** ** Runs that reach the filter-and-emit stage *)

Section Completed.

Variable int : string → res Z.
Variable Samfile : string → res Bam.
Variable dict_values : gmap string slots → list slots.
Hypothesis dict_values_perm :
  ∀ d : gmap string slots, dict_values d ≡ₚ (map_to_list d).*2.

Variables (bamname region prefix : string) (fns : list ExtractFn).
Variables (pad max_read_pairs : Z).
Variables (chrom : string) (start stop : Z) (bam : Bam).
Variable alns : list Alignment.

Hypothesis region_ok :
  region_bounds int region pad = Ok (chrom, (start - pad)%Z, (stop + pad)%Z).
Hypothesis bam_ok : Samfile bamname = Ok bam.
Hypothesis fetch_ok :
  (0 ≤ start - pad)%Z →
  bam_fetch bam chrom (start - pad)%Z (stop + pad)%Z = Ok alns.
Hypothesis mate_ok : mate_raises_only_ValueError bam.

Let aln_list : list Alignment := region_reads (start - pad) alns.
Let run : M (list ((string * string) * nat)) :=
  extract_read_pairs int Samfile dict_values bamname region prefix fns pad
                     max_read_pairs.

Lemma read_region_run :
  ∃ t : list event,
    read_region bam chrom (start - pad)%Z (stop + pad)%Z = (t, Ok aln_list)
    ∧ Forall no_output t ∧ mate_lookups t = []
    ∧ Forall (fun ev => ∀ m, ev ≠ EvLog INFO m) t.
Proof.
  subst aln_list. unfold region_reads.
  destruct (Z.ltb_spec (start - pad) 0) as [Hneg|Hpos].
  - rewrite read_region_negative by done.
    eexists. split; [done|]. by repeat constructor.
  - rewrite (read_region_fetch _ _ _ _ alns) by auto.
    eexists. split; [done|]. by repeat constructor.
Qed.

(** C6. When the fetched non-secondary alignments bear more distinct
    query names than [max_read_pairs], the extraction logs that it skips,
    looks up no mate, examines zero pairs, writes nothing and returns a
    count of 0 for every extraction function, whatever these are.  When the
    number of names equals [max_read_pairs], the mate resolution is run and
    nothing is skipped. *)
Theorem too_many_reads_extracts_nothing :
  ((max_read_pairs < Z.of_nat (length (distinct_qnames aln_list)))%Z →
   run.2 = Ok ((fun fn => (output_names prefix fn, 0)) <$> fns)
   ∧ (INFO, MsgTooMany) ∈ logged run.1
   ∧ mate_lookups run.1 = []
   ∧ (INFO, MsgExamined 0) ∈ logged run.1
   ∧ writes run.1 = [])
  ∧ (Z.of_nat (length (distinct_qnames aln_list)) = max_read_pairs →
     build_pairs dict_values bam aln_list max_read_pairs
       = after [EvLog INFO (MsgBuilding (length aln_list))]
           (resolve_mates bam (dict_values (group_by_qname aln_list)) [])
     ∧ (INFO, MsgBuilding (length aln_list)) ∈ logged run.1
     ∧ (INFO, MsgTooMany) ∉ logged run.1).
Proof.
  clear mate_ok. subst run.
  rewrite (extract_read_pairs_stages int Samfile dict_values _ _ _ _ _ _
             _ _ _ _ region_ok bam_ok).
  destruct read_region_run as (t & -> & Hout & Hm & Hlog). run_step.
  apply no_output_projections in Hout as (Hw & _ & _).
  split.
  - intros Hmax. rewrite (build_pairs_too_many dict_values) by done.
    run_step. rewrite write_pairs_nil, !after_after, after_pair.
    cbn [fst snd].
    destruct (open_events_projections (output_files prefix fns))
      as (Ho1 & Ho2 & Ho3 & _ & Ho5 & _).
    destruct (close_events_projections (output_files prefix fns))
      as (Hc1 & Hc2 & Hc3 & _ & Hc5 & _).
    rewrite !logged_app, !mate_lookups_app, !writes_app.
    rewrite Ho1, Ho2, Ho5, Hc1, Hc2, Hc5, Hw, Hm. cbn.
    repeat split; try done; set_solver.
  - intros Hmax. split; [apply build_pairs_proceeds; lia|].
    rewrite (build_pairs_proceeds dict_values) by lia.
    rewrite after_bind, !after_after. split.
    + unfold after. cbn [fst]. rewrite !logged_app. cbn. set_solver.
    + intros Hin. unfold logged in Hin.
      destruct (proj1 (list_elem_of_omap _ _ _) Hin) as (ev & Hev & Hev').
      revert Hev'. eapply (proj1 (Forall_forall
        (fun ev => ¬ match ev with EvLog l m => Some (l, m) | _ => None end
                     = Some (INFO, MsgTooMany)) _)); [|exact Hev].
      apply after_events_Forall.
      { repeat first [apply Forall_app; split | apply Forall_cons; split
                     | apply Forall_nil | done].
        eapply Forall_impl; [exact Hlog|].
        intros [] Hne; try done. intros [= -> ->]. by eapply Hne. }
      apply bind_events_Forall.
      * eapply Forall_impl; [apply resolve_mates_events|].
        by intros ? [a ->].
      * intros aln_pairs _. apply after_events_Forall; [by repeat constructor|].
        eapply Forall_impl; [apply write_pairs_events|].
        intros [] Hok; try done. cbn in Hok. naive_solver.
Qed.

(** The events up to the closing of the alignment file when the mate
    resolution is run. *)
Lemma run_with_resolution :
  (Z.of_nat (length (distinct_qnames aln_list)) ≤ max_read_pairs)%Z →
  ∃ t1 t2 : list event,
    run = after (t1 ++ (EvMate <$> omap lookup_argument
                                     (dict_values (group_by_qname aln_list)))
                    ++ t2)
            (write_pairs prefix fns
               (omap (resolved_pair bam)
                     (dict_values (group_by_qname aln_list))))
    ∧ mate_lookups t1 = [] ∧ writes t1 = []
    ∧ mate_lookups t2 = [] ∧ writes t2 = [].
Proof.
  intros Hmax. subst run.
  rewrite (extract_read_pairs_stages int Samfile dict_values _ _ _ _ _ _
             _ _ _ _ region_ok bam_ok).
  destruct read_region_run as (t & -> & Hout & Hm & _). run_step.
  apply no_output_projections in Hout as (Hw & _ & _).
  rewrite (build_pairs_run dict_values dict_values_perm) by done.
  run_step. rewrite !after_after.
  eexists (_ :: _ :: t ++ [_]), [_]. split.
  - f_equal. cbn. by rewrite <- !app_assoc.
  - cbn. rewrite mate_lookups_app, writes_app, Hw, Hm. done.
Qed.

(** The alignment file is closed before the filter-and-emit stage runs
    on pairs with both slots filled. *)
Lemma run_reaches_emit :
  ∃ (t : list event) (reads : list (Alignment * Alignment)),
    (build_pairs dict_values bam aln_list max_read_pairs).2
      = Ok (slots_of <$> reads)
    ∧ run = after t (write_pairs prefix fns (slots_of <$> reads))
    ∧ writes t = [] ∧ opened t = [] ∧ closed t = [].
Proof.
  subst run.
  rewrite (extract_read_pairs_stages int Samfile dict_values _ _ _ _ _ _
             _ _ _ _ region_ok bam_ok).
  destruct read_region_run as (t & -> & Hout & _ & _). run_step.
  destruct (Z.le_gt_cases (Z.of_nat (length (distinct_qnames aln_list)))
              max_read_pairs) as [Hmax|Hmax].
  - rewrite (build_pairs_run dict_values dict_values_perm) by done.
    destruct (both_filled_reads _
                (resolved_pair_filled bam
                   (dict_values (group_by_qname aln_list)))) as [reads ->].
    run_step. rewrite !after_after.
    eexists _, reads. split; [done|]. split; [done|].
    apply no_output_projections.
    repeat first [apply Forall_app; split | apply Forall_cons; split
                 | apply mate_events_no_output | done].
  - rewrite (build_pairs_too_many dict_values) by lia.
    run_step. rewrite !after_after.
    eexists _, []. split; [done|]. split; [done|].
    apply no_output_projections.
    repeat first [apply Forall_app; split | apply Forall_cons; split | done].
Qed.

(** C7. Under the pair ceiling, an entry of the dictionary with exactly
    one slot filled gets exactly one mate lookup.  If the lookup raises
    [ValueError], no exception leaves the resolution and the pair is
    dropped: no pair of its query name is examined and no record of that
    name is written.  If the lookup returns a mate, the entry with the mate
    in its empty slot is among the examined pairs.  An entry with both
    slots filled is among the examined pairs without any lookup. *)
Theorem single_slot_entries_get_one_lookup :
  mate_keeps_qname bam →
  (Z.of_nat (length (distinct_qnames aln_list)) ≤ max_read_pairs)%Z →
  ∃ (aln_pairs : list slots) (t : list event),
    (build_pairs dict_values bam aln_list max_read_pairs).2 = Ok aln_pairs
    ∧ run = after t (write_pairs prefix fns aln_pairs)
    ∧ writes t = []
    ∧ ∀ (q : string) (p : slots),
        group_by_qname aln_list !! q = Some p →
        (both_filled p →
           p ∈ aln_pairs
           ∧ filter (fun x => qname x = q) (mate_lookups run.1) = [])
        ∧ (∀ a : Alignment,
             only_slot p a →
             filter (fun x => qname x = q) (mate_lookups run.1) = [a]
             ∧ (bam_mate bam a = Raise ValueError →
                  (∀ (p' : slots) (x : Alignment),
                     p' ∈ aln_pairs → in_pair x p' → qname x ≠ q)
                  ∧ (∀ (f : file) (text : string),
                       (f, text) ∈ writes run.1 →
                       ∃ x : Alignment,
                         text = read_record x ∧ qname x ≠ q))
             ∧ (∀ m : Alignment,
                  bam_mate bam a = Ok m →
                  set_slot p (missing_index p) (Some m) ∈ aln_pairs)).
Proof.
  intros Hkeep Hmax.
  destruct (run_with_resolution Hmax) as (t1 & t2 & Hrun & Hm1 & Hw1 & Hm2 & Hw2).
  set (d := group_by_qname aln_list) in *.
  set (aln_pairs := omap (resolved_pair bam) (dict_values d)) in *.
  destruct (emit_events_projections aln_pairs _
              (write_pairs_events prefix fns aln_pairs)) as (Hem & _ & Hew).
  destruct (mate_events_projections (omap lookup_argument (dict_values d)))
    as (Hlw & _ & _ & Hlm).
  assert (Hlookups : mate_lookups run.1 = omap lookup_argument (dict_values d)).
  { rewrite Hrun. unfold after. cbn [fst].
    rewrite !mate_lookups_app, Hm1, Hm2, Hem, Hlm. cbn. by rewrite ?app_nil_r. }
  assert (Hwrites : writes run.1 = writes (write_pairs prefix fns aln_pairs).1).
  { rewrite Hrun. unfold after. cbn [fst].
    by rewrite !writes_app, Hw1, Hw2, Hlw. }
  assert (Hin : ∀ q p p', d !! q = Some p → resolved_pair bam p = Some p' →
                          p' ∈ aln_pairs).
  { intros q p p' Hq Hres. apply list_elem_of_omap. exists p. split; [|done].
    apply (dict_values_elem_of dict_values dict_values_perm). eauto. }
  assert (Hdropped : ∀ q p, d !! q = Some p → resolved_pair bam p = None →
            ∀ p' x, p' ∈ aln_pairs → in_pair x p' → qname x ≠ q).
  { intros q p Hq Hnone p' x Hp' Hx <-.
    destruct (resolved_pair_origin dict_values dict_values_perm _ _ _ Hp')
      as (q0 & p0 & Hq0 & Hres0).
    pose proof (resolved_pair_qname bam q0 p0 p' x Hkeep
                  (group_by_qname_entry_ok aln_list q0 p0 Hq0) Hres0 Hx) as Heq.
    fold d in Hq0. rewrite Heq in Hq. congruence. }
  exists aln_pairs, (t1 ++ (EvMate <$> omap lookup_argument (dict_values d)) ++ t2).
  split.
  { subst aln_pairs d.
    by rewrite (build_pairs_run dict_values dict_values_perm). }
  split; [done|]. split; [by rewrite !writes_app, Hw1, Hw2, Hlw|].
  intros q p Hq. rewrite Hlookups.
  pose proof (lookups_of_entry dict_values dict_values_perm aln_list q p Hq)
    as Hl.
  fold d in Hl. rewrite Hl. clear Hl.
  split.
  - intros [[a Ha] [b Hb]]. destruct p as [p1 p2]. cbn in Ha, Hb. subst.
    split; [|done]. eapply Hin; [exact Hq|reflexivity].
  - intros a [->| ->]; cbn [lookup_argument option_list].
    + split; [done|]. split.
      * intros Hraise.
        assert (resolved_pair bam (Some a, None) = None) as Hnone
          by (cbn; by rewrite Hraise).
        split; [by eapply Hdropped|].
        intros f text Hft. rewrite Hwrites in Hft.
        destruct (Hew f text Hft) as (p' & x & Hp' & Hx & ->).
        exists x. split; [done|]. by eapply Hdropped.
      * intros m Hm. eapply Hin; [exact Hq|]. cbn. by rewrite Hm.
    + split; [done|]. split.
      * intros Hraise.
        assert (resolved_pair bam (None, Some a) = None) as Hnone
          by (cbn; by rewrite Hraise).
        split; [by eapply Hdropped|].
        intros f text Hft. rewrite Hwrites in Hft.
        destruct (Hew f text Hft) as (p' & x & Hp' & Hx & ->).
        exists x. split; [done|]. by eapply Hdropped.
      * intros m Hm. eapply Hin; [exact Hq|]. cbn. by rewrite Hm.
Qed.

(** The run when every extraction function returns booleans. *)
Lemma run_completes :
  Forall returns_bool fns →
  ∃ (t : list event) (reads : list (Alignment * Alignment)),
    (build_pairs dict_values bam aln_list max_read_pairs).2
      = Ok (slots_of <$> reads)
    ∧ run = after t (write_pairs prefix fns (slots_of <$> reads))
    ∧ writes t = [] ∧ opened t = [] ∧ closed t = []
    ∧ run =
        (t ++ open_events (output_files prefix fns)
           ++ (reads ≫= pair_writes (zip (output_files prefix fns) fns))
           ++ close_events (output_files prefix fns)
           ++ [EvLog INFO (MsgExamined (length reads));
               EvLog INFO (MsgCounts
                 ((fun fn => (fn_name fn, selected_count fn reads)) <$> fns))],
         Ok ((fun fn => (output_names prefix fn, selected_count fn reads))
               <$> fns)).
Proof.
  intros Hfns.
  destruct run_reaches_emit as (t & reads & Hbuild & Hrun & Hw & Ho & Hc).
  exists t, reads. repeat split; try done.
  rewrite Hrun, write_pairs_run by done. reflexivity.
Qed.

Lemma output_files_lookup (k : nat) (fn : ExtractFn) :
  fns !! k = Some fn →
  ∃ e : file * file,
    output_files prefix fns !! k = Some e
    ∧ zip (output_files prefix fns) fns !! k = Some (e, fn)
    ∧ file_name e.1 = fq_name prefix (fn_name fn) "_1.fq"
    ∧ file_name e.2 = fq_name prefix (fn_name fn) "_2.fq".
Proof.
  intros Hk. unfold output_files, output_files_from.
  eexists. rewrite list_lookup_imap, Hk. split; [reflexivity|].
  split; [|done].
  rewrite lookup_zip_with, list_lookup_imap, Hk. reflexivity.
Qed.

(** An [all_pair] channel receives the records of every pair handed to
    the filter-and-emit stage and counts them all. *)
Lemma all_pair_channel_receives_every_pair :
  Forall returns_bool fns →
  ∃ (reads : list (Alignment * Alignment)) (t : list event),
    (build_pairs dict_values bam aln_list max_read_pairs).2
      = Ok (slots_of <$> reads)
    ∧ Forall both_filled (slots_of <$> reads)
    ∧ run = after t (write_pairs prefix fns (slots_of <$> reads))
    ∧ writes t = []
    ∧ ∀ k : nat,
        fns !! k = Some all_pair_fn →
        ∃ (e : file * file) (result : list ((string * string) * nat)),
          output_files prefix fns !! k = Some e
          ∧ written_to e.1 run.1 = (fun ab => read_record ab.1) <$> reads
          ∧ written_to e.2 run.1 = (fun ab => read_record ab.2) <$> reads
          ∧ run.2 = Ok result
          ∧ result !! k
            = Some (output_names prefix all_pair_fn, length reads).
Proof.
  intros Hfns.
  destruct (run_completes Hfns)
    as (t & reads & Hbuild & Hrun & Hw & Ho & Hc & Hfull).
  exists reads, t. split; [done|]. split.
  { apply Forall_fmap, Forall_forall. intros ab _. split; cbn; eauto. }
  split; [done|]. split; [done|].
  intros k Hk. destruct (output_files_lookup k _ Hk) as (e & He & Hch & _).
  exists e. eexists. split; [done|]. rewrite Hfull. cbn [fst snd].
  assert (Hnd : NoDup (files_of (zip (output_files prefix fns) fns).*1)).
  { rewrite zip_fst_same_length by apply length_output_files_from.
    apply output_files_NoDup. }
  destruct (open_events_projections (output_files prefix fns)) as (Ho1 & _).
  destruct (close_events_projections (output_files prefix fns)) as (Hc1 & _).
  rewrite !written_to_app.
  rewrite (written_to_no_writes _ t), (written_to_no_writes _ (open_events _)),
    (written_to_no_writes _ (close_events _)) by done.
  rewrite (written_to_no_writes _ t), (written_to_no_writes _ (open_events _)),
    (written_to_no_writes _ (close_events _)) by done.
  rewrite !written_to_bind.
  assert (Hsel : ∀ ab, selects all_pair_fn ab = true) by done.
  split; [|split; [|split; [reflexivity|]]].
  - cbn [app]. rewrite app_nil_r. clear -Hnd Hch Hsel.
    induction reads as [|ab reads IH]; [done|].
    cbn [mbind list_bind fmap list_fmap]. rewrite IH.
    destruct (written_to_channel _ k e all_pair_fn ab Hnd Hch) as [-> _].
    by rewrite Hsel.
  - cbn [app]. rewrite app_nil_r. clear -Hnd Hch Hsel.
    induction reads as [|ab reads IH]; [done|].
    cbn [mbind list_bind fmap list_fmap]. rewrite IH.
    destruct (written_to_channel _ k e all_pair_fn ab Hnd Hch) as [_ ->].
    by rewrite Hsel.
  - rewrite list_lookup_fmap, Hk. cbn [fmap option_fmap option_map].
    do 2 f_equal. unfold selected_count. clear -Hsel.
    induction reads as [|ab reads IH]; [done|].
    rewrite filter_cons_True by done. cbn [length]. by rewrite IH.
Qed.

(** C9. A run creates, for every requested extraction function, the
    file objects of the two names made of the prefix and the name of the
    function, each opened once and closed once, whatever the number of
    pairs the function selects. *)
Theorem output_files_created_for_every_function :
  Forall returns_bool fns →
  ∃ (tr : list event) (result : list ((string * string) * nat)),
    run = (tr, Ok result)
    ∧ opened tr = files_of (output_files prefix fns)
    ∧ closed tr = files_of (output_files prefix fns)
    ∧ NoDup (files_of (output_files prefix fns))
    ∧ length (output_files prefix fns) = length fns
    ∧ ∀ (k : nat) (fn : ExtractFn),
        fns !! k = Some fn →
        ∃ (e : file * file) (count : nat),
          output_files prefix fns !! k = Some e
          ∧ file_name e.1 = prefix +:+ "_" +:+ fn_name fn +:+ "_1.fq"
          ∧ file_name e.2 = prefix +:+ "_" +:+ fn_name fn +:+ "_2.fq"
          ∧ result !! k = Some ((file_name e.1, file_name e.2), count).
Proof.
  intros Hfns.
  destruct (run_completes Hfns)
    as (t & reads & Hbuild & Hrun & Hw & Ho & Hc & Hfull).
  eexists _, _. split; [exact Hfull|].
  destruct (open_events_projections (output_files prefix fns))
    as (_ & _ & _ & Hoc & _ & Hoo).
  destruct (close_events_projections (output_files prefix fns))
    as (_ & _ & _ & Hco & _ & Hcc).
  destruct (pair_writes_projections (zip (output_files prefix fns) fns) reads)
    as (Hpo & Hpc & _).
  rewrite !opened_app, !closed_app, Ho, Hc, Hoc, Hoo, Hco, Hcc, Hpo, Hpc.
  cbn [app]. rewrite !app_nil_r.
  split; [done|]. split; [done|]. split; [apply output_files_NoDup|].
  split; [apply length_output_files_from|].
  intros k fn Hk. destruct (output_files_lookup k fn Hk) as (e & He & _ & H1 & H2).
  exists e, (selected_count fn reads). split; [done|].
  split; [done|]. split; [done|].
  rewrite list_lookup_fmap, Hk, H1, H2. reflexivity.
Qed.

End Completed.

(** C8. [all_pair] returns true on every two arguments, [None] included.
    The pairs handed to the filter-and-emit stage all have both slots
    filled, whatever the alignment file answers, so that no extraction
    function is called on [None]; and in a run that is not aborted every
    such pair is written through the two files of an [all_pair] channel,
    which counts them all. *)
Theorem all_pair_writes_every_resolved_pair
    (int : string → res Z) (Samfile : string → res Bam)
    (dict_values : gmap string slots → list slots)
    (bamname region prefix : string) (fns : list ExtractFn)
    (pad max_read_pairs : Z) (chrom : string) (start stop : Z)
    (bam : Bam) (alns : list Alignment) :
  let aln_list := region_reads (start - pad) alns in
  let run := extract_read_pairs int Samfile dict_values bamname region prefix
               fns pad max_read_pairs in
  (∀ aln mate : pyref, all_pair aln mate = Ok true)
  ∧ match (build_pairs dict_values bam aln_list max_read_pairs).2 with
    | Ok aln_pairs => Forall both_filled aln_pairs
    | Raise _ => True
    end
  ∧ ((∀ d : gmap string slots, dict_values d ≡ₚ (map_to_list d).*2) →
     region_bounds int region pad
       = Ok (chrom, (start - pad)%Z, (stop + pad)%Z) →
     Samfile bamname = Ok bam →
     ((0 ≤ start - pad)%Z →
      bam_fetch bam chrom (start - pad)%Z (stop + pad)%Z = Ok alns) →
     mate_raises_only_ValueError bam →
     Forall returns_bool fns →
     ∃ (reads : list (Alignment * Alignment)) (t : list event),
       (build_pairs dict_values bam aln_list max_read_pairs).2
         = Ok (slots_of <$> reads)
       ∧ run = after t (write_pairs prefix fns (slots_of <$> reads))
       ∧ writes t = []
       ∧ ∀ k : nat,
           fns !! k = Some all_pair_fn →
           ∃ (e : file * file) (result : list ((string * string) * nat)),
             output_files prefix fns !! k = Some e
             ∧ written_to e.1 run.1 = (fun ab => read_record ab.1) <$> reads
             ∧ written_to e.2 run.1 = (fun ab => read_record ab.2) <$> reads
             ∧ run.2 = Ok result
             ∧ result !! k
               = Some (output_names prefix all_pair_fn, length reads)).
Proof.
  intros aln_list run. split; [done|]. split; [apply build_pairs_filled|].
  intros Hperm Hregion Hbam Hfetch Hmate Hfns.
  destruct (all_pair_channel_receives_every_pair int Samfile dict_values Hperm
              bamname region prefix fns pad max_read_pairs chrom start stop
              bam alns Hregion Hbam Hfetch Hmate Hfns)
    as (reads & t & Hbuild & _ & Hrun & Hw & Hall).
  exists reads, t. auto.
Qed.

(** ** The sample file *)

Lemma sample_dict_values_perm (d : gmap string slots) :
  sample_dict_values d ≡ₚ (map_to_list d).*2.
Proof. reflexivity. Qed.

Lemma sample_region_ok (pad : Z) :
  region_bounds sample_int "chr1:100-200" pad
    = Ok ("chr1", (100 - pad)%Z, (200 + pad)%Z).
Proof. reflexivity. Qed.

Lemma sample_bam_ok : sample_Samfile "sample.bam" = Ok sample_bam.
Proof. reflexivity. Qed.

Lemma sample_fetch_ok (start stop : Z) :
  (0 ≤ start)%Z → bam_fetch sample_bam "chr1" start stop = Ok sample_alns.
Proof. reflexivity. Qed.

Lemma sample_mate_raises_only_ValueError :
  mate_raises_only_ValueError sample_bam.
Proof. intros a e. cbn. case_bool_decide; [done|]. by intros [= <-]. Qed.

Lemma sample_mate_keeps_qname : mate_keeps_qname sample_bam.
Proof.
  intros a m. cbn. case_bool_decide as Hq; [|done]. intros [= <-].
  by rewrite Hq.
Qed.

Lemma discordant_fn_returns_bool (lo hi : Z) : returns_bool (discordant_fn lo hi).
Proof.
  intros a b. cbn. unfold discordant. cbn.
  destruct (tlen a =? 0)%Z; eauto.
Qed.

Lemma all_pair_fn_returns_bool : returns_bool all_pair_fn.
Proof. intros a b. by exists true. Qed.

Lemma sample_fns_return_bool : Forall returns_bool sample_fns.
Proof.
  repeat constructor;
    [apply discordant_fn_returns_bool|apply all_pair_fn_returns_bool].
Qed.

(** The sample region padded by 101 starts at -1. *)
Lemma negative_start_extracts_nothing_witness :
  (100 - 101 < 0)%Z
  ∧ ∃ tr : list event,
      sample_run 101 10
        = (tr, Ok ((fun fn => (output_names "out" fn, 0)) <$> sample_fns))
      ∧ (ERROR, MsgSkipInterval) ∈ logged tr
      ∧ fetches tr = []
      ∧ mate_lookups tr = []
      ∧ (INFO, MsgExamined 0) ∈ logged tr
      ∧ writes tr = [].
Proof.
  split; [reflexivity|].
  apply (negative_start_extracts_nothing sample_int sample_Samfile
           sample_dict_values sample_dict_values_perm
           "sample.bam" "chr1:100-200" "out" sample_fns 101 10
           "chr1" 100 200 sample_bam).
  - reflexivity.
  - reflexivity.
  - reflexivity.
Defined.

(** The sample reads bear four query names: a ceiling of 3 skips the
    extraction, a ceiling of 4 does not. *)
Lemma too_many_reads_extracts_nothing_witness :
  ((sample_run 0 3).2
     = Ok ((fun fn => (output_names "out" fn, 0)) <$> sample_fns)
   ∧ (INFO, MsgTooMany) ∈ logged (sample_run 0 3).1
   ∧ mate_lookups (sample_run 0 3).1 = []
   ∧ (INFO, MsgExamined 0) ∈ logged (sample_run 0 3).1
   ∧ writes (sample_run 0 3).1 = [])
  ∧ ((INFO, MsgBuilding 6) ∈ logged (sample_run 0 4).1
     ∧ (INFO, MsgTooMany) ∉ logged (sample_run 0 4).1).
Proof.
  split.
  - apply (proj1 (too_many_reads_extracts_nothing sample_int sample_Samfile
             sample_dict_values sample_dict_values_perm
             "sample.bam" "chr1:100-200" "out" sample_fns 0 3
             "chr1" 100 200 sample_bam sample_alns
             (sample_region_ok 0) sample_bam_ok (sample_fetch_ok _ _))).
    vm_compute. reflexivity.
  - apply (proj2 (too_many_reads_extracts_nothing sample_int sample_Samfile
             sample_dict_values sample_dict_values_perm
             "sample.bam" "chr1:100-200" "out" sample_fns 0 4
             "chr1" 100 200 sample_bam sample_alns
             (sample_region_ok 0) sample_bam_ok (sample_fetch_ok _ _))).
    vm_compute. reflexivity.
Defined.

(** Without the condition on the ceiling the statement of C7 fails: with
    a ceiling of 3 the entry of [lost] keeps its single filled slot and no
    mate is looked up for it. *)
Lemma single_slot_entry_without_lookup :
  group_by_qname (region_reads (100 - 0) sample_alns) !! "lost"
    = Some (Some lost_1, None)
  ∧ only_slot (Some lost_1, None) lost_1
  ∧ (3 < Z.of_nat (length (distinct_qnames
                             (region_reads (100 - 0) sample_alns))))%Z
  ∧ mate_lookups (sample_run 0 3).1 = []
  ∧ filter (fun x => qname x = "lost") (mate_lookups (sample_run 0 3).1)
    ≠ [lost_1].
Proof.
  split; [by vm_compute|]. split; [by left|]. split; [by vm_compute|].
  split; [by vm_compute|]. vm_compute. discriminate.
Qed.

(** Under a ceiling of 10 the entries of [lost] and [zero] get one lookup
    each, and no record of [lost], whose lookup fails, is written. *)
Lemma single_slot_entries_get_one_lookup_witness :
  filter (fun x => qname x = "lost") (mate_lookups (sample_run 0 10).1)
    = [lost_1]
  ∧ filter (fun x => qname x = "zero") (mate_lookups (sample_run 0 10).1)
    = [zero_2]
  ∧ (∀ (f : file) (text : string),
       (f, text) ∈ writes (sample_run 0 10).1 →
       ∃ x : Alignment, text = read_record x ∧ qname x ≠ "lost").
Proof.
  destruct (single_slot_entries_get_one_lookup sample_int sample_Samfile
              sample_dict_values sample_dict_values_perm
              "sample.bam" "chr1:100-200" "out" sample_fns 0 10
              "chr1" 100 200 sample_bam sample_alns
              (sample_region_ok 0) sample_bam_ok (sample_fetch_ok _ _)
              sample_mate_raises_only_ValueError sample_mate_keeps_qname)
    as (aln_pairs & t & _ & _ & _ & Hentries).
  { by vm_compute. }
  destruct (Hentries "lost" (Some lost_1, None)) as [_ Hlost];
    [by vm_compute|].
  destruct (Hentries "zero" (None, Some zero_2)) as [_ Hzero];
    [by vm_compute|].
  destruct (Hlost lost_1) as (Hone & Hdrop & _); [by left|].
  destruct (Hzero zero_2) as (Hone' & _); [by right|].
  split; [exact Hone|]. split; [exact Hone'|].
  apply Hdrop. reflexivity.
Defined.

(** The second channel of the sample run is [all_pair]. *)
Lemma all_pair_writes_every_resolved_pair_witness :
  ∃ (reads : list (Alignment * Alignment)) (e : file * file),
    (build_pairs sample_dict_values sample_bam
       (region_reads (100 - 0) sample_alns) 10).2 = Ok (slots_of <$> reads)
    ∧ output_files "out" sample_fns !! 1 = Some e
    ∧ written_to e.1 (sample_run 0 10).1 = (fun ab => read_record ab.1) <$> reads
    ∧ written_to e.2 (sample_run 0 10).1 = (fun ab => read_record ab.2) <$> reads.
Proof.
  destruct (proj2 (proj2 (all_pair_writes_every_resolved_pair sample_int
              sample_Samfile sample_dict_values
              "sample.bam" "chr1:100-200" "out" sample_fns 0 10
              "chr1" 100 200 sample_bam sample_alns))
              sample_dict_values_perm
              (sample_region_ok 0) sample_bam_ok (sample_fetch_ok _ _)
              sample_mate_raises_only_ValueError sample_fns_return_bool)
    as (reads & t & Hbuild & _ & _ & Hall).
  destruct (Hall 1) as (e & result & He & H1 & H2 & _); [reflexivity|].
  exists reads, e. auto.
Defined.

(** The sample run opens and closes the four files of its two
    functions. *)
Lemma output_files_created_for_every_function_witness :
  ∃ (tr : list event) (result : list ((string * string) * nat)),
    sample_run 0 10 = (tr, Ok result)
    ∧ opened tr = files_of (output_files "out" sample_fns)
    ∧ closed tr = files_of (output_files "out" sample_fns).
Proof.
  destruct (output_files_created_for_every_function sample_int
              sample_Samfile sample_dict_values sample_dict_values_perm
              "sample.bam" "chr1:100-200" "out" sample_fns 0 10
              "chr1" 100 200 sample_bam sample_alns
              (sample_region_ok 0) sample_bam_ok (sample_fetch_ok _ _)
              sample_mate_raises_only_ValueError sample_fns_return_bool)
    as (tr & result & Hrun & Ho & Hc & _).
  exists tr, result. auto.
Defined.

(** * Further properties *)

(** ** Sequences and records *)

Lemma complement_base_involutive (c : ascii) :
  complement_base (complement_base c) = c.
Proof. destruct c as [[] [] [] [] [] [] [] []]; reflexivity. Qed.

Lemma upper_char_idempotent (c : ascii) : upper_char (upper_char c) = upper_char c.
Proof. destruct c as [[] [] [] [] [] [] [] []]; reflexivity. Qed.

Lemma upper_char_complement_base (c : ascii) :
  upper_char (complement_base (upper_char c)) = complement_base (upper_char c).
Proof. destruct c as [[] [] [] [] [] [] [] []]; reflexivity. Qed.

Lemma upper_list (s : string) :
  list_ascii_of_string (upper s) = upper_char <$> list_ascii_of_string s.
Proof. induction s as [|c s IH]; cbn; congruence. Qed.

Lemma upper_of_list (l : list ascii) :
  upper (string_of_list_ascii l) = string_of_list_ascii (upper_char <$> l).
Proof. induction l as [|c l IH]; cbn; congruence. Qed.

Lemma upper_idempotent (s : string) : upper (upper s) = upper s.
Proof.
  induction s as [|c s IH]; [done|]. cbn.
  by rewrite upper_char_idempotent, IH.
Qed.

Lemma fmap_rev {A B : Type} (f : A → B) (l : list A) :
  f <$> rev l = rev (f <$> l).
Proof.
  induction l as [|x l IH]; [done|]. cbn. by rewrite fmap_app, IH.
Qed.

Lemma string_of_list_ascii_inj_list (s : string) (l : list ascii) :
  list_ascii_of_string s = l → s = string_of_list_ascii l.
Proof. intros <-. by rewrite string_of_list_ascii_of_string. Qed.

(** X1. [compl] is its own inverse: the complement of the complement of
    a string is the string. *)
Theorem compl_involutive (s : string) :
  ∃ r : string, compl s = Ok r ∧ compl r = Ok s.
Proof.
  eexists. split; [apply compl_total|].
  rewrite compl_total, list_ascii_of_string_of_list_ascii.
  rewrite <- list_fmap_compose.
  rewrite (list_fmap_ext _ id (list_ascii_of_string s)).
  - by rewrite list_fmap_id, string_of_list_ascii_of_string.
  - intros _ c _. apply complement_base_involutive.
Qed.

Lemma length_string_of_list_ascii (l : list ascii) :
  String.length (string_of_list_ascii l) = length l.
Proof. induction l; cbn; congruence. Qed.

Lemma length_upper (s : string) : String.length (upper s) = String.length s.
Proof. induction s; cbn; congruence. Qed.

(** X2. The sequence and the quality string that [get_sequence_quality]
    returns are as long as those of the alignment, on either strand. *)
Theorem get_sequence_quality_lengths (aln : Alignment) :
  ∃ sequence quality : string,
    get_sequence_quality (Some aln) = Ok (sequence, quality)
    ∧ String.length sequence = String.length (seq aln)
    ∧ String.length quality = String.length (qual aln).
Proof.
  rewrite get_sequence_quality_read. destruct (is_reverse aln).
  - eexists _, _. split; [reflexivity|]. unfold reverse_complement.
    rewrite !length_string_of_list_ascii, !length_rev, length_fmap.
    by rewrite !length_list_ascii_of_string, length_upper.
  - eexists _, _. split; [reflexivity|]. by rewrite length_upper.
Qed.

(** X3. Feeding the result of [get_sequence_quality] back as the sequence
    and quality of the same alignment gives the upper-cased original
    sequence and the original quality string: on the reverse strand the
    second reverse complement undoes the first. *)
Theorem get_sequence_quality_twice (aln : Alignment) :
  ∃ sequence quality : string,
    get_sequence_quality (Some aln) = Ok (sequence, quality)
    ∧ get_sequence_quality (Some (with_seq_qual aln sequence quality))
      = Ok (upper (seq aln), qual aln).
Proof.
  rewrite get_sequence_quality_read.
  destruct (is_reverse aln) eqn:Hrev; (eexists _, _; split; [reflexivity|]);
    rewrite get_sequence_quality_read; cbn [with_seq_qual is_reverse seq qual];
    rewrite Hrev.
  - f_equal. f_equal.
    + unfold reverse_complement.
      rewrite upper_of_list, list_ascii_of_string_of_list_ascii.
      apply eq_sym, string_of_list_ascii_inj_list.
      rewrite !fmap_rev, rev_involutive, upper_list.
      rewrite <- !list_fmap_compose. apply list_fmap_ext. intros _ c _. cbn.
      by rewrite upper_char_complement_base, complement_base_involutive.
    + by rewrite list_ascii_of_string_of_list_ascii, rev_involutive,
        string_of_list_ascii_of_string.
  - by rewrite upper_idempotent.
Qed.

Lemma newlines_app (s1 s2 : string) :
  newlines (s1 +:+ s2) = newlines s1 + newlines s2.
Proof.
  induction s1 as [|c s1 IH]; [done|].
  change (String c s1 +:+ s2) with (String c (s1 +:+ s2)).
  cbn [newlines]. rewrite IH. lia.
Qed.

Lemma newlines_of_list (l : list ascii) :
  newlines (string_of_list_ascii l)
    = length (filter (fun c => c = ascii_of_nat 10) l).
Proof.
  induction l as [|c l IH]; [done|]. cbn [string_of_list_ascii newlines].
  rewrite IH, filter_cons. by case_decide.
Qed.

Lemma newlines_list (s : string) :
  newlines s = length (filter (fun c => c = ascii_of_nat 10)
                              (list_ascii_of_string s)).
Proof. by rewrite <- newlines_of_list, string_of_list_ascii_of_string. Qed.

Lemma newlines_rev (l : list ascii) :
  newlines (string_of_list_ascii (rev l)) = newlines (string_of_list_ascii l).
Proof.
  rewrite !newlines_of_list. apply Permutation_length.
  apply filter_Permutation. symmetry. apply Permutation_rev.
Qed.

Lemma upper_char_newline (c : ascii) :
  upper_char c = ascii_of_nat 10 ↔ c = ascii_of_nat 10.
Proof.
  destruct c as [[] [] [] [] [] [] [] []]; vm_compute; split; congruence.
Qed.

Lemma complement_base_newline (c : ascii) :
  complement_base c = ascii_of_nat 10 ↔ c = ascii_of_nat 10.
Proof.
  destruct c as [[] [] [] [] [] [] [] []]; vm_compute; split; congruence.
Qed.

Lemma newlines_upper (s : string) : newlines (upper s) = newlines s.
Proof.
  induction s as [|c s IH]; [done|]. cbn. rewrite IH.
  repeat case_decide; try done; exfalso; by rewrite upper_char_newline in *.
Qed.

Lemma newlines_complement (l : list ascii) :
  newlines (string_of_list_ascii (complement_base <$> l))
    = newlines (string_of_list_ascii l).
Proof.
  induction l as [|c l IH]; [done|]. cbn. rewrite IH.
  repeat case_decide; try done; exfalso; by rewrite complement_base_newline in *.
Qed.

(** X4. The text written for an alignment holds four newlines besides
    those of its name, sequence and quality string: a read whose three
    strings are free of newlines is written as exactly four lines. *)
Theorem write_read_four_lines (fd : file) (aln : Alignment) :
  ∃ text : string,
    write_read fd (Some aln) = ([EvWrite fd text], Ok tt)
    ∧ newlines text
      = 4 + newlines (qname aln) + newlines (seq aln) + newlines (qual aln).
Proof.
  eexists. split; [apply write_read_record|].
  unfold read_record, fastq_record. rewrite !newlines_app.
  assert (Hend : newlines (if is_read1 aln then "1" else "2") = 0)
    by (by destruct (is_read1 aln)).
  assert (Hseq : newlines (if is_reverse aln
                           then reverse_complement (upper (seq aln))
                           else upper (seq aln)) = newlines (seq aln)).
  { destruct (is_reverse aln); [|apply newlines_upper].
    unfold reverse_complement.
    by rewrite newlines_rev, newlines_complement,
      string_of_list_ascii_of_string, newlines_upper. }
  assert (Hqual : newlines (if is_reverse aln
                            then string_of_list_ascii
                                   (rev (list_ascii_of_string (qual aln)))
                            else qual aln) = newlines (qual aln)).
  { destruct (is_reverse aln); [|done].
    by rewrite newlines_rev, string_of_list_ascii_of_string. }
  rewrite Hend, Hseq, Hqual.
  change (newlines nl) with 1. change (newlines "@") with 0.
  change (newlines "/") with 0. change (newlines "+") with 0. lia.
Qed.

(** ** The insert-size predicates *)

(** X5. Narrowing the insert-size window can only add pairs: a pair
    that [discordant] selects for a window is selected for every window
    inside it. *)
Theorem discordant_window_monotone (aln : Alignment) (mate : pyref)
    (lo hi lo' hi' : Z) :
  (lo' ≤ lo)%Z → (hi ≤ hi')%Z →
  discordant (Some aln) mate lo' hi' = Ok true →
  discordant (Some aln) mate lo hi = Ok true.
Proof.
  intros Hlo Hhi. unfold discordant. cbn [getattr mbind res_bind].
  destruct (tlen aln =? 0)%Z; [done|].
  intros [= Hsel]. f_equal.
  apply negb_true_iff, not_true_iff_false in Hsel. apply negb_true_iff.
  apply not_true_iff_false. rewrite isize_within_spec in *. lia.
Qed.

Lemma discordant_window_monotone_witness :
  discordant (Some out_1) (Some out_2) 300 400 = Ok true.
Proof.
  apply (discordant_window_monotone out_1 (Some out_2) 300 400 200 500);
    [lia|lia|reflexivity].
Defined.

(** X6. With the bounds 200 and 500 that the command line uses by
    default, [discordant] selects only pairs that it also selects with its
    own default bounds 300 and 400. *)
Theorem discordant_cli_defaults_select_fewer (aln : Alignment) (mate : pyref) :
  discordant (Some aln) mate cli_default_isize_min cli_default_isize_max
    = Ok true →
  discordant (Some aln) mate default_isize_min default_isize_max = Ok true.
Proof.
  unfold discordant. cbn [getattr mbind res_bind].
  destruct (tlen aln =? 0)%Z; [done|].
  intros [= Hsel]. f_equal.
  apply negb_true_iff, not_true_iff_false in Hsel. apply negb_true_iff.
  apply not_true_iff_false. rewrite isize_within_spec in *.
  unfold cli_default_isize_min, cli_default_isize_max,
    default_isize_min, default_isize_max in *. lia.
Qed.

Lemma discordant_cli_defaults_select_fewer_witness :
  discordant (Some out_1) (Some out_2) default_isize_min default_isize_max
    = Ok true.
Proof.
  apply (discordant_cli_defaults_select_fewer out_1 (Some out_2)).
  reflexivity.
Defined.

(** X7. [discordant_with_normal_orientation] selects a subset of what
    [discordant] selects with the same bounds. *)
Theorem normal_orientation_selects_fewer (aln mate : Alignment) (lo hi : Z) :
  discordant_with_normal_orientation (Some aln) (Some mate) lo hi = Ok true →
  discordant (Some aln) (Some mate) lo hi = Ok true.
Proof.
  unfold discordant_with_normal_orientation, discordant.
  cbn [getattr mbind res_bind].
  destruct (tlen aln =? 0)%Z; [done|].
  unfold py_or, py_and, py_not. cbn.
  by destruct (is_reverse aln), (is_reverse mate).
Qed.

Lemma normal_orientation_selects_fewer_witness :
  discordant (Some out_1) (Some out_2) 300 400 = Ok true.
Proof.
  apply (normal_orientation_selects_fewer out_1 out_2 300 400). reflexivity.
Defined.

(** X8. For two reads with opposite template lengths, as the two ends
    of one template have, [discordant] and
    [discordant_with_normal_orientation] give the same answer whichever
    read is passed first. *)
Theorem discordant_either_read_first (aln mate : Alignment) (lo hi : Z) :
  tlen mate = (- tlen aln)%Z →
  discordant (Some aln) (Some mate) lo hi
    = discordant (Some mate) (Some aln) lo hi
  ∧ discordant_with_normal_orientation (Some aln) (Some mate) lo hi
    = discordant_with_normal_orientation (Some mate) (Some aln) lo hi.
Proof.
  intros Ht. unfold discordant_with_normal_orientation, discordant.
  cbn [getattr mbind res_bind]. rewrite Ht.
  assert (Hw : isize_within lo hi (- tlen aln) = isize_within lo hi (tlen aln))
    by (unfold isize_within; by rewrite Z.abs_opp).
  rewrite Hw.
  destruct (Z.eqb_spec (tlen aln) 0) as [H0|H0];
    destruct (Z.eqb_spec (- tlen aln) 0) as [H1|H1]; try lia; [done|].
  split; [done|]. unfold py_or, py_and, py_not. cbn.
  by destruct (is_reverse aln), (is_reverse mate).
Qed.

Lemma discordant_either_read_first_witness :
  discordant (Some out_1) (Some out_2) 300 400
    = discordant (Some out_2) (Some out_1) 300 400
  ∧ discordant_with_normal_orientation (Some out_1) (Some out_2) 300 400
    = discordant_with_normal_orientation (Some out_2) (Some out_1) 300 400.
Proof.
  apply (discordant_either_read_first out_1 out_2 300 400). reflexivity.
Defined.

(** ** Keeping reads by mapping *)

Lemma is_clip_Ok (op : Z * Z) : is_clip (Ok op) = Ok (clip_operation op.1).
Proof.
  unfold is_clip, py_or, clip_operation. cbn.
  repeat case_bool_decide; try done; naive_solver.
Qed.

Lemma last_cons_default {A : Type} (x : A) (l : list A) :
  last (x :: l) = Some (default x (last l)).
Proof.
  revert x. induction l as [|y l IH]; intros x; [done|].
  rewrite last_cons_cons, IH. cbn. by destruct (last l).
Qed.

Lemma is_clipped_both_cons (m : Mapping) (first : Z * Z) (rest : list (Z * Z)) :
  cigar m = Some (first :: rest) →
  is_clipped_both (Some m)
    = Ok (clip_operation first.1
          && clip_operation (default first (last rest)).1).
Proof.
  intros Hc. unfold is_clipped_both. cbn [mapping_attr mbind res_bind].
  rewrite Hc. unfold index, index_last. cbn [lookup list_lookup].
  rewrite last_cons_default, !is_clip_Ok. reflexivity.
Qed.

(** X9. A read without CIGAR counts as clipped on both sides; an empty
    list of operations raises [IndexError]; a read with a single operation
    is clipped on both sides exactly when that operation is a clip; and in
    general the first and the last operation decide. *)
Theorem is_clipped_both_cases (m : Mapping) :
  (cigar m = None → is_clipped_both (Some m) = Ok true)
  ∧ (cigar m = Some [] → is_clipped_both (Some m) = Raise IndexError)
  ∧ (∀ op : Z * Z,
       cigar m = Some [op] →
       is_clipped_both (Some m) = Ok (clip_operation op.1))
  ∧ (∀ (first : Z * Z) (rest : list (Z * Z)),
       cigar m = Some (first :: rest) →
       is_clipped_both (Some m)
         = Ok (clip_operation first.1
               && clip_operation (default first (last rest)).1)).
Proof.
  split; [|split; [|split]].
  - intros Hc. unfold is_clipped_both. cbn. by rewrite Hc.
  - intros Hc. unfold is_clipped_both. cbn. by rewrite Hc.
  - intros op Hc. rewrite (is_clipped_both_cons m op [] Hc). cbn.
    by destruct (clip_operation op.1).
  - apply is_clipped_both_cons.
Qed.

Lemma is_clipped_both_cases_witness :
  is_clipped_both (Some {| cigar := None; mapq := 60; pos := 150 |}) = Ok true
  ∧ is_clipped_both (Some {| cigar := Some []; mapq := 60; pos := 150 |})
    = Raise IndexError
  ∧ is_clipped_both (Some {| cigar := Some [(4, 100)%Z]; mapq := 60; pos := 150 |})
    = Ok true
  ∧ is_clipped_both
      (Some {| cigar := Some [(4, 10); (0, 80); (5, 10)]%Z;
               mapq := 60; pos := 150 |})
    = Ok true.
Proof.
  split; [|split; [|split]].
  - apply (proj1 (is_clipped_both_cases _)). reflexivity.
  - apply (proj1 (proj2 (is_clipped_both_cases _))). reflexivity.
  - apply (proj1 (proj2 (proj2 (is_clipped_both_cases _))) (4, 100)%Z).
    reflexivity.
  - apply (proj2 (proj2 (proj2 (is_clipped_both_cases _)))
             (4, 10)%Z [(0, 80); (5, 10)]%Z).
    reflexivity.
Defined.

Lemma keep_read_Some (m : Mapping) (aln_chr chromosome : string) (start stop : Z) :
  keep_read (Some m) aln_chr chromosome start stop =
    if bool_decide (aln_chr = chromosome) then
      clipped ← is_clipped_both (Some m);
      Ok (negb clipped
          && ((40 <=? mapq m)%Z && ((start <=? pos m)%Z && (pos m <? stop)%Z)))
    else Ok false.
Proof.
  unfold keep_read, py_and, py_not. cbn [mbind res_bind mapping_attr].
  case_bool_decide; [|done].
  destruct (is_clipped_both (Some m)) as [[]|e]; cbn; try done.
  by destruct (40 <=? mapq m)%Z.
Qed.

(** X10. A read on another chromosome is not kept, and nothing of it is
    read: the answer is false for [None] and for a read whose operation
    list is empty as well. *)
Theorem keep_read_other_chromosome (aln : option Mapping)
    (aln_chr chromosome : string) (start stop : Z) :
  aln_chr ≠ chromosome →
  keep_read aln aln_chr chromosome start stop = Ok false.
Proof.
  intros Hne. unfold keep_read, py_and. cbn [mbind res_bind].
  by rewrite bool_decide_eq_false_2.
Qed.

Lemma keep_read_other_chromosome_witness :
  keep_read None "chr2" "chr1" 100 200 = Ok false.
Proof. apply keep_read_other_chromosome. discriminate. Defined.

(** X11. [keep_read] returns true exactly for a read of the chromosome
    that has operations, is not clipped at both ends, has mapping quality
    at least 40 and starts inside the half-open interval. *)
Theorem keep_read_true_iff (m : Mapping) (aln_chr chromosome : string)
    (start stop : Z) :
  keep_read (Some m) aln_chr chromosome start stop = Ok true
  ↔ aln_chr = chromosome
    ∧ (∃ ops : list (Z * Z),
         cigar m = Some ops ∧ ops ≠ [] ∧ ¬ clipped_at_both_ends ops)
    ∧ (40 ≤ mapq m)%Z
    ∧ (start ≤ pos m < stop)%Z.
Proof.
  rewrite keep_read_Some. case_bool_decide as Hchr; [|naive_solver].
  destruct (cigar m) as [[|first rest]|] eqn:Hc.
  - unfold is_clipped_both. cbn. rewrite Hc. cbn. naive_solver.
  - rewrite (is_clipped_both_cons m first rest Hc). cbn [mbind res_bind].
    split.
    + intros [= Hk]. apply andb_true_iff in Hk as [Hclip Hk].
      apply andb_true_iff in Hk as [Hq Hk].
      apply andb_true_iff in Hk as [Hs He].
      apply Z.leb_le in Hq, Hs. apply Z.ltb_lt in He.
      apply negb_true_iff in Hclip.
      split; [done|]. split; [|lia].
      exists (first :: rest). split; [done|]. split; [done|].
      intros (f & r & [= <- <-] & H1 & H2). by rewrite H1, H2 in Hclip.
    + intros (_ & (ops & [= <-] & _ & Hnot) & Hq & Hs & He). f_equal.
      apply andb_true_iff. split.
      * apply negb_true_iff, not_true_iff_false. intros Hclip.
        apply andb_true_iff in Hclip as [H1 H2]. apply Hnot.
        by exists first, rest.
      * rewrite !andb_true_iff, !Z.leb_le, Z.ltb_lt. lia.
  - unfold is_clipped_both. cbn. rewrite Hc. cbn. naive_solver.
Qed.

Lemma keep_read_true_iff_witness :
  keep_read (Some {| cigar := Some [(4, 10); (0, 90)]%Z; mapq := 40; pos := 100 |})
    "chr1" "chr1" 100 200 = Ok true.
Proof.
  apply keep_read_true_iff. split; [done|]. split; [|split; cbn; lia].
  exists [(4, 10); (0, 90)]%Z. split; [done|]. split; [done|].
  intros (f & r & [= <- <-] & _ & H2). vm_compute in H2. discriminate.
Defined.

Lemma keep_read_wider_returns (aln : option Mapping)
    (aln_chr chromosome : string) (start stop start' stop' : Z) (b : bool) :
  keep_read aln aln_chr chromosome start stop = Ok b →
  ∃ b' : bool, keep_read aln aln_chr chromosome start' stop' = Ok b'.
Proof.
  destruct aln as [m|].
  - rewrite !keep_read_Some. case_bool_decide; [|eauto].
    destruct (is_clipped_both (Some m)) as [clipped|]; [|done].
    cbn. eauto.
  - unfold keep_read, py_and, py_not. cbn. case_bool_decide; [done|eauto].
Qed.

Lemma keep_read_wider (aln : option Mapping)
    (aln_chr chromosome : string) (start stop start' stop' : Z) :
  (start' ≤ start)%Z → (stop ≤ stop')%Z →
  keep_read aln aln_chr chromosome start stop = Ok true →
  keep_read aln aln_chr chromosome start' stop' = Ok true.
Proof.
  intros Hs He. destruct aln as [m|].
  - rewrite !keep_read_Some. case_bool_decide; [|done].
    destruct (is_clipped_both (Some m)) as [clipped|]; [|done].
    cbn. intros [= Hk]. f_equal.
    rewrite !andb_true_iff, !Z.leb_le, !Z.ltb_lt in *.
    destruct Hk as (Hc & Hq & Hs' & He'). repeat split; [done|lia..].
  - unfold keep_read, py_and, py_not. cbn. by case_bool_decide.
Qed.

(** X12. A read kept for an interval is kept for every interval that
    contains it, and so is a pair. *)
Theorem keep_in_wider_interval (aln mate : option Mapping)
    (aln_chr mate_chr chromosome : string) (start stop start' stop' : Z) :
  (start' ≤ start)%Z → (stop ≤ stop')%Z →
  (keep_read aln aln_chr chromosome start stop = Ok true →
   keep_read aln aln_chr chromosome start' stop' = Ok true)
  ∧ (keep_pair aln mate aln_chr mate_chr chromosome start stop = Ok true →
     keep_pair aln mate aln_chr mate_chr chromosome start' stop' = Ok true).
Proof.
  intros Hs He. split; [by apply keep_read_wider|]. unfold keep_pair.
  destruct (keep_read aln aln_chr chromosome start stop) as [[]|] eqn:H1;
    cbn [mbind res_bind]; [| |done].
  - intros _. by rewrite (keep_read_wider _ _ _ _ _ _ _ Hs He H1).
  - destruct (keep_read_wider_returns _ _ _ _ _ start' stop' _ H1) as [b' ->].
    cbn [mbind res_bind]. destruct b'; [done|].
    destruct (keep_read mate mate_chr chromosome start stop) as [[]|] eqn:H2;
      cbn [mbind res_bind]; [|done..].
    intros _. by rewrite (keep_read_wider _ _ _ _ _ _ _ Hs He H2).
Qed.

Lemma keep_in_wider_interval_witness :
  keep_read (Some {| cigar := Some [(0, 100)%Z]; mapq := 60; pos := 150 |})
    "chr1" "chr1" 0 1000 = Ok true
  ∧ keep_pair (Some {| cigar := None; mapq := 0; pos := 0 |})
      (Some {| cigar := Some [(0, 100)%Z]; mapq := 60; pos := 150 |})
      "chr1" "chr1" "chr1" 0 1000 = Ok true.
Proof.
  split.
  - apply (proj1 (keep_in_wider_interval _ None "chr1" "chr1" "chr1"
                    100 200 0 1000 ltac:(lia) ltac:(lia))).
    reflexivity.
  - apply (proj2 (keep_in_wider_interval _ _ "chr1" "chr1" "chr1"
                    100 200 0 1000 ltac:(lia) ltac:(lia))).
    reflexivity.
Defined.

(** X13. No read is kept for an empty interval, and no pair either. *)
Theorem keep_nothing_in_empty_interval (aln mate : option Mapping)
    (aln_chr mate_chr chromosome : string) (start stop : Z) :
  (stop ≤ start)%Z →
  keep_read aln aln_chr chromosome start stop ≠ Ok true
  ∧ keep_pair aln mate aln_chr mate_chr chromosome start stop ≠ Ok true.
Proof.
  intros Hempty.
  assert (Hread : ∀ r c, keep_read r c chromosome start stop ≠ Ok true).
  { intros [m|] c.
    - rewrite keep_read_Some. case_bool_decide; [|done].
      destruct (is_clipped_both (Some m)) as [clipped|]; [|done].
      cbn. intros [= Hk].
      rewrite !andb_true_iff, !Z.leb_le, !Z.ltb_lt in Hk. lia.
    - unfold keep_read, py_and, py_not. cbn. by case_bool_decide. }
  split; [apply Hread|]. unfold keep_pair.
  pose proof (Hread aln aln_chr) as H1. pose proof (Hread mate mate_chr) as H2.
  destruct (keep_read aln aln_chr chromosome start stop) as [[]|];
    cbn [mbind res_bind]; try done.
  by destruct (keep_read mate mate_chr chromosome start stop) as [[]|].
Qed.

Lemma keep_nothing_in_empty_interval_witness :
  keep_read (Some {| cigar := Some [(0, 100)%Z]; mapq := 60; pos := 150 |})
    "chr1" "chr1" 200 100 ≠ Ok true.
Proof.
  apply (keep_nothing_in_empty_interval _ None "chr1" "chr1" "chr1" 200 100).
  lia.
Defined.

(** X14. When [keep_read] returns a boolean for both reads, [keep_pair]
    gives the same answer whichever read is passed first. *)
Theorem keep_pair_either_read_first (aln mate : option Mapping)
    (aln_chr mate_chr chromosome : string) (start stop : Z) :
  (∃ b, keep_read aln aln_chr chromosome start stop = Ok b) →
  (∃ b, keep_read mate mate_chr chromosome start stop = Ok b) →
  keep_pair aln mate aln_chr mate_chr chromosome start stop
    = keep_pair mate aln mate_chr aln_chr chromosome start stop.
Proof.
  intros [b1 H1] [b2 H2]. unfold keep_pair. rewrite H1, H2.
  cbn [mbind res_bind]. by destruct b1, b2.
Qed.

Lemma keep_pair_either_read_first_witness :
  keep_pair (Some {| cigar := Some [(0, 100)%Z]; mapq := 60; pos := 150 |})
            (Some {| cigar := None; mapq := 0; pos := 0 |})
            "chr1" "chr1" "chr1" 100 200
  = keep_pair (Some {| cigar := None; mapq := 0; pos := 0 |})
              (Some {| cigar := Some [(0, 100)%Z]; mapq := 60; pos := 150 |})
              "chr1" "chr1" "chr1" 100 200.
Proof.
  apply keep_pair_either_read_first; eexists; reflexivity.
Defined.

(** ** Region strings *)

Lemma split_without (sep : ascii) (s : string) :
  has_char sep s = false → split sep s = [s].
Proof.
  induction s as [|c s IH]; [done|]. cbn [has_char split].
  intros Hc. apply orb_false_iff in Hc as [Hc Hs].
  apply bool_decide_eq_false in Hc. rewrite decide_False by done.
  by rewrite IH.
Qed.

Lemma split_nonempty (sep : ascii) (s : string) : split sep s ≠ [].
Proof.
  induction s as [|c s IH]; [done|]. cbn [split].
  case_decide; [done|]. by destruct (split sep s).
Qed.

(** Splitting at a separator splits what is before it and what is after
    it. *)
Lemma split_app_sep (sep : ascii) (x y : string) :
  split sep (x +:+ String sep y) = split sep x ++ split sep y.
Proof.
  induction x as [|c x IH].
  - change ("" +:+ String sep y) with (String sep y). cbn [split].
    by rewrite decide_True.
  - change (String c x +:+ String sep y) with (String c (x +:+ String sep y)).
    cbn [split]. case_decide; [by rewrite IH|].
    rewrite IH. pose proof (split_nonempty sep x).
    by destruct (split sep x).
Qed.

Lemma has_char_app (c : ascii) (x y : string) :
  has_char c (x +:+ y) = has_char c x || has_char c y.
Proof.
  induction x as [|a x IH]; [done|].
  change (String a x +:+ y) with (String a (x +:+ y)). cbn [has_char].
  by rewrite IH, orb_assoc.
Qed.

Section Regions.

Variable int : string → res Z.

(** X15. A region string made of a chromosome name, a colon, a start, a
    dash and an end, where the name holds no colon and the start and the
    end hold neither a colon nor a dash, is read back as that name with
    the start lowered and the end raised by the padding. *)
Theorem region_bounds_well_formed (chrom s e : string) (x y pad : Z) :
  has_char ":" chrom = false →
  has_char ":" s = false → has_char "-" s = false →
  has_char ":" e = false → has_char "-" e = false →
  int s = Ok x → int e = Ok y →
  region_bounds int (chrom +:+ ":" +:+ s +:+ "-" +:+ e) pad
    = Ok (chrom, (x - pad)%Z, (y + pad)%Z).
Proof.
  intros Hc Hs1 Hs2 He1 He2 Hx Hy. unfold region_bounds.
  change (":" +:+ s +:+ "-" +:+ e) with (String ":" (s +:+ "-" +:+ e)).
  change ("-" +:+ e) with (String "-" e).
  rewrite split_app_sep, (split_without ":" chrom Hc).
  rewrite (split_without ":" (s +:+ String "-" e)).
  - cbn [app index lookup list_lookup mbind res_bind].
    rewrite split_app_sep, (split_without "-" s Hs2), (split_without "-" e He2).
    cbn [app index lookup list_lookup mbind res_bind].
    by rewrite Hx, Hy.
  - rewrite has_char_app. cbn [has_char]. by rewrite Hs1, He1.
Qed.

(** X16. Whatever follows a second colon of a region string is ignored:
    a region that holds a colon gives the same bounds, or the same
    exception, with a colon and any text appended. *)
Theorem region_bounds_ignores_third_field (region junk : string) (pad : Z) :
  has_char ":" region = true →
  region_bounds int (region +:+ ":" +:+ junk) pad = region_bounds int region pad.
Proof.
  intros Hcolon. unfold region_bounds.
  change (":" +:+ junk) with (String ":" junk). rewrite split_app_sep.
  assert (Htwo : ∃ a b rest, split ":" region = a :: b :: rest).
  { clear -Hcolon. induction region as [|c r IH]; [done|].
    cbn [has_char] in Hcolon. cbn [split]. case_decide as Hc.
    - pose proof (split_nonempty ":" r). destruct (split ":" r); [done|eauto].
    - rewrite bool_decide_eq_false_2 in Hcolon by done.
      destruct (IH Hcolon) as (a & b & rest & ->). eauto. }
  destruct Htwo as (a & b & rest & ->). reflexivity.
Qed.

End Regions.

Lemma region_bounds_well_formed_witness :
  region_bounds sample_int ("chr1" +:+ ":" +:+ "100" +:+ "-" +:+ "200") 25
    = Ok ("chr1", (100 - 25)%Z, (200 + 25)%Z).
Proof.
  apply (region_bounds_well_formed sample_int "chr1" "100" "200" 100 200 25);
    reflexivity.
Defined.

Lemma region_bounds_ignores_third_field_witness :
  region_bounds sample_int ("chr1:100-200" +:+ ":" +:+ "x") 0
    = region_bounds sample_int "chr1:100-200" 0.
Proof.
  apply (region_bounds_ignores_third_field sample_int "chr1:100-200" "x" 0).
  reflexivity.
Defined.

(** ** Runs that are aborted *)

Section Aborted.

Variable int : string → res Z.
Variable Samfile : string → res Bam.
Variable dict_values : gmap string slots → list slots.

Variables (bamname region prefix : string) (fns : list ExtractFn).
Variables (pad max_read_pairs : Z).

Let run : M (list ((string * string) * nat)) :=
  extract_read_pairs int Samfile dict_values bamname region prefix fns pad
                     max_read_pairs.

(** X17. A region string without a colon makes the extraction raise
    [IndexError] right after its first log entry: the alignment file is
    not opened and no output file is created. *)
Theorem region_without_colon_raises :
  has_char ":" region = false →
  run = ([EvLog INFO (MsgExtracting bamname region pad (fn_name <$> fns))],
         Raise IndexError).
Proof.
  intros Hcolon. subst run. unfold extract_read_pairs, region_bounds.
  rewrite (split_without ":" region Hcolon). reflexivity.
Qed.

(** X18. An exception raised when the alignment file is opened, or
    when the interval is fetched, leaves the extraction as it is: no
    output file is created, and after a failed fetch the alignment file is
    not closed. *)
Theorem alignment_file_errors_propagate
    (chrom : string) (start stop : Z) (e : exn) :
  region_bounds int region pad = Ok (chrom, (start - pad)%Z, (stop + pad)%Z) →
  (Samfile bamname = Raise e →
   run = ([EvLog INFO (MsgExtracting bamname region pad (fn_name <$> fns));
           EvSamfile bamname],
          Raise e))
  ∧ (∀ bam : Bam,
       Samfile bamname = Ok bam →
       (0 ≤ start - pad)%Z →
       bam_fetch bam chrom (start - pad)%Z (stop + pad)%Z = Raise e →
       run = ([EvLog INFO (MsgExtracting bamname region pad (fn_name <$> fns));
               EvSamfile bamname;
               EvFetch chrom (start - pad)%Z (stop + pad)%Z],
              Raise e)).
Proof.
  intros Hregion. subst run. unfold extract_read_pairs. cbv zeta.
  rewrite Hregion. unfold log. repeat run_step. split.
  - intros ->. by repeat run_step.
  - intros bam -> Hpos Hfetch. run_step. unfold read_region.
    destruct (Z.ltb_spec (start - pad) 0); [lia|].
    rewrite Hfetch. by repeat run_step.
Qed.

End Aborted.

Lemma region_without_colon_raises_witness :
  extract_read_pairs sample_int sample_Samfile sample_dict_values
    "sample.bam" "chr1" "out" sample_fns 0 10
  = ([EvLog INFO (MsgExtracting "sample.bam" "chr1" 0 (fn_name <$> sample_fns))],
     Raise IndexError).
Proof.
  apply (region_without_colon_raises sample_int sample_Samfile
           sample_dict_values "sample.bam" "chr1" "out" sample_fns 0 10).
  reflexivity.
Defined.

Lemma alignment_file_errors_propagate_witness :
  extract_read_pairs sample_int sample_Samfile sample_dict_values
    "missing.bam" "chr1:100-200" "out" sample_fns 0 10
  = ([EvLog INFO (MsgExtracting "missing.bam" "chr1:100-200" 0
                    (fn_name <$> sample_fns));
      EvSamfile "missing.bam"],
     Raise IOError)
  ∧ extract_read_pairs sample_int sample_Samfile sample_dict_values
      "sample.bam" "chr9:100-200" "out" sample_fns 0 10
    = ([EvLog INFO (MsgExtracting "sample.bam" "chr9:100-200" 0
                      (fn_name <$> sample_fns));
        EvSamfile "sample.bam";
        EvFetch "chr9" (100 - 0)%Z (200 + 0)%Z],
       Raise ValueError).
Proof.
  split.
  - apply (proj1 (alignment_file_errors_propagate sample_int sample_Samfile
             sample_dict_values "missing.bam" "chr1:100-200" "out" sample_fns
             0 10 "chr1" 100 200 IOError eq_refl)).
    reflexivity.
  - apply (proj2 (alignment_file_errors_propagate sample_int sample_Samfile
             sample_dict_values "sample.bam" "chr9:100-200" "out" sample_fns
             0 10 "chr9" 100 200 ValueError eq_refl) sample_bam).
    + reflexivity.
    + lia.
    + reflexivity.
Defined.

(** ** The dictionary of the fetched reads *)

Lemma last_read_absent (first : bool) (q : string) (l : list Alignment) :
  q ∉ qname <$> l → last_read first q l = None.
Proof.
  intros Hq. unfold last_read. apply last_None.
  induction l as [|a l IH]; [done|]. cbn [fmap list_fmap] in Hq.
  apply not_elem_of_cons in Hq as [Hne Hq].
  rewrite filter_cons_False by naive_solver. by apply IH.
Qed.

Lemma last_read_snoc (first : bool) (q : string) (l : list Alignment)
    (a : Alignment) :
  last_read first q (l ++ [a]) =
    if decide (qname a = q ∧ is_read1 a = first) then Some a
    else last_read first q l.
Proof.
  unfold last_read. rewrite filter_app, filter_cons, filter_nil.
  case_decide; [apply last_snoc|by rewrite app_nil_r].
Qed.

(** X19. The dictionary has an entry for exactly the query names of the
    list, and each slot of an entry holds the last alignment of that name
    for the slot: a later alignment overwrites an earlier one, and a slot
    is empty only when the list has no alignment for it. *)
Theorem group_by_qname_last_wins (l : list Alignment) (q : string) :
  group_by_qname l !! q =
    if decide (q ∈ qname <$> l)
    then Some (last_read true q l, last_read false q l)
    else None.
Proof.
  induction l as [|a l IH] using rev_ind.
  - unfold group_by_qname. cbn. rewrite lookup_empty.
    case_decide; [set_solver|done].
  - unfold group_by_qname in *. rewrite foldl_app. cbn [foldl].
    rewrite group_step_insert, fmap_app, !last_read_snoc.
    cbn [fmap list_fmap].
    destruct (decide (qname a = q)) as [<-|Hne].
    + rewrite lookup_insert_eq, IH.
      rewrite (decide_True (P := qname a ∈ (qname <$> l) ++ [qname a]))
        by set_solver.
      assert (Hdef : default (None, None)
                (if decide (qname a ∈ qname <$> l)
                 then Some (last_read true (qname a) l,
                            last_read false (qname a) l)
                 else None)
              = (last_read true (qname a) l, last_read false (qname a) l)).
      { case_decide; [done|]. by rewrite !last_read_absent. }
      rewrite Hdef.
      destruct (is_read1 a); cbn [set_slot fst snd].
      * rewrite (decide_True (P := qname a = qname a ∧ true = true)) by done.
        by rewrite (decide_False (P := qname a = qname a ∧ true = false))
          by naive_solver.
      * rewrite (decide_False (P := qname a = qname a ∧ false = true))
          by naive_solver.
        by rewrite (decide_True (P := qname a = qname a ∧ false = false)).
    + rewrite lookup_insert_ne, IH by done.
      rewrite (decide_False (P := qname a = q ∧ is_read1 a = true))
        by naive_solver.
      rewrite (decide_False (P := qname a = q ∧ is_read1 a = false))
        by naive_solver.
      destruct (decide (q ∈ qname <$> l));
        [rewrite decide_True by set_solver|rewrite decide_False by set_solver];
        done.
Qed.

Lemma foldl_group_step_members (all l : list Alignment) (d : gmap string slots) :
  l ⊆ all →
  map_Forall (fun _ p => ∀ x, in_pair x p → x ∈ all) d →
  map_Forall (fun _ p => ∀ x, in_pair x p → x ∈ all) (foldl group_step d l).
Proof.
  revert d. induction l as [|a l IH]; intros d Hl Hd; [done|].
  cbn [foldl]. apply IH; [set_solver|].
  rewrite group_step_insert. apply map_Forall_insert_2; [|done].
  intros x Hx.
  assert (Hold : ∀ y, in_pair y (default (None, None) (d !! qname a)) → y ∈ all).
  { destruct (d !! qname a) as [p|] eqn:Hp; cbn [default].
    - by apply (Hd _ _ Hp).
    - by intros y [[=]|[=]]. }
  destruct (is_read1 a); cbn [set_slot] in Hx;
    destruct Hx as [Hx|Hx]; cbn [fst snd] in Hx.
  - injection Hx as <-. set_solver.
  - apply Hold. by right.
  - apply Hold. by left.
  - injection Hx as <-. set_solver.
Qed.

Lemma group_by_qname_members (l : list Alignment) (q : string) (p : slots)
    (x : Alignment) :
  group_by_qname l !! q = Some p → in_pair x p → x ∈ l.
Proof.
  intros Hq. revert x.
  apply (foldl_group_step_members l l ∅ (reflexivity _) (map_Forall_empty _)
           q p Hq).
Qed.

(** ** What a run writes *)

Lemma region_reads_elem_of (chr_start : Z) (alns : list Alignment)
    (x : Alignment) :
  x ∈ region_reads chr_start alns → x ∈ alns ∧ is_secondary x = false.
Proof.
  unfold region_reads. destruct (chr_start <? 0)%Z; [by intros ?%elem_of_nil|].
  rewrite list_elem_of_filter. tauto.
Qed.

Lemma resolved_pair_members (bam : Bam) (p p' : slots) (x : Alignment) :
  resolved_pair bam p = Some p' →
  in_pair x p' →
  in_pair x p ∨ ∃ a : Alignment, in_pair a p ∧ bam_mate bam a = Ok x.
Proof.
  destruct p as [[a|] [b|]]; cbn [resolved_pair]; [| | |done].
  - intros [= <-]. by left.
  - destruct (bam_mate bam a) as [m|] eqn:Hm; [|done].
    intros [= <-] [[= <-]|[= <-]]; [left; by left|].
    right. exists a. split; [by left|done].
  - destruct (bam_mate bam b) as [m|] eqn:Hm; [|done].
    intros [= <-] [[= <-]|[= <-]]; [|left; by right].
    right. exists b. split; [by right|done].
Qed.

Lemma selected_reads_records (fn : ExtractFn) (chs : list ((file * file) * ExtractFn))
    (k : nat) (e : file * file) (reads : list (Alignment * Alignment)) :
  NoDup (files_of chs.*1) →
  chs !! k = Some (e, fn) →
  (reads ≫= fun ab => written_to e.1 (pair_writes chs ab))
    = (fun ab => read_record ab.1)
        <$> filter (fun ab => selects fn ab = true) reads
  ∧ (reads ≫= fun ab => written_to e.2 (pair_writes chs ab))
    = (fun ab => read_record ab.2)
        <$> filter (fun ab => selects fn ab = true) reads.
Proof.
  intros Hnd Hch. induction reads as [|ab reads [IH1 IH2]]; [done|].
  cbn [mbind list_bind]. rewrite IH1, IH2, filter_cons.
  destruct (written_to_channel chs k e fn ab Hnd Hch) as [-> ->].
  destruct (selects fn ab); by case_decide.
Qed.

Section Written.

Variable int : string → res Z.
Variable Samfile : string → res Bam.
Variable dict_values : gmap string slots → list slots.
Hypothesis dict_values_perm :
  ∀ d : gmap string slots, dict_values d ≡ₚ (map_to_list d).*2.

Variables (bamname region prefix : string) (fns : list ExtractFn).
Variables (pad max_read_pairs : Z).
Variables (chrom : string) (start stop : Z) (bam : Bam).
Variable alns : list Alignment.

Hypothesis region_ok :
  region_bounds int region pad = Ok (chrom, (start - pad)%Z, (stop + pad)%Z).
Hypothesis bam_ok : Samfile bamname = Ok bam.
Hypothesis fetch_ok :
  (0 ≤ start - pad)%Z →
  bam_fetch bam chrom (start - pad)%Z (stop + pad)%Z = Ok alns.
Hypothesis mate_ok : mate_raises_only_ValueError bam.

Let aln_list : list Alignment := region_reads (start - pad) alns.
Let run : M (list ((string * string) * nat)) :=
  extract_read_pairs int Samfile dict_values bamname region prefix fns pad
                     max_read_pairs.

Lemma built_pairs_origin (aln_pairs : list slots) (p : slots) (x : Alignment) :
  (build_pairs dict_values bam aln_list max_read_pairs).2 = Ok aln_pairs →
  p ∈ aln_pairs →
  in_pair x p →
  x ∈ aln_list ∨ ∃ a : Alignment, a ∈ aln_list ∧ bam_mate bam a = Ok x.
Proof.
  destruct (Z.le_gt_cases (Z.of_nat (length (distinct_qnames aln_list)))
              max_read_pairs) as [Hmax|Hmax].
  - rewrite (build_pairs_run dict_values dict_values_perm) by done.
    intros [= <-] Hp Hx.
    destruct (resolved_pair_origin dict_values dict_values_perm _ _ _ Hp)
      as (q & p0 & Hq & Hres).
    destruct (resolved_pair_members bam p0 p x Hres Hx) as [H0|(a & Ha & Hm)].
    + left. by eapply group_by_qname_members.
    + right. exists a. split; [by eapply group_by_qname_members|done].
  - rewrite (build_pairs_too_many dict_values) by lia.
    by intros [= <-] ?%elem_of_nil.
Qed.

(** X20. Every record a run writes is the record of a fetched alignment
    that is not secondary, or of the mate that a lookup returned for such
    an alignment, whatever the extraction functions do. *)
Theorem written_records_origin (f : file) (text : string) :
  (f, text) ∈ writes run.1 →
  ∃ x : Alignment,
    text = read_record x
    ∧ ((x ∈ alns ∧ is_secondary x = false)
       ∨ ∃ a : Alignment,
           a ∈ alns ∧ is_secondary a = false ∧ bam_mate bam a = Ok x).
Proof.
  subst run.
  destruct (run_reaches_emit int Samfile dict_values dict_values_perm
              bamname region prefix fns pad max_read_pairs chrom start stop
              bam alns region_ok bam_ok fetch_ok mate_ok)
    as (t & reads & Hbuild & -> & Hw & _ & _).
  unfold after. cbn [fst]. rewrite writes_app, Hw. cbn [app]. intros Hin.
  destruct (emit_events_projections _ _
              (write_pairs_events prefix fns (slots_of <$> reads)))
    as (_ & _ & Hfrom).
  destruct (Hfrom f text Hin) as (p & x & Hp & Hx & ->).
  exists x. split; [done|].
  destruct (built_pairs_origin _ p x Hbuild Hp Hx) as [H0|(a & Ha & Hm)].
  - left. by apply (region_reads_elem_of (start - pad)).
  - right. exists a.
    destruct (region_reads_elem_of (start - pad) alns a Ha). eauto.
Qed.

(** X21. In a run that is not aborted, the two files of every
    extraction function receive, in the order the pairs are examined, the
    first and the second read of exactly the pairs the function selects,
    and the count returned for the function is their number: the two
    files of a function always hold equally many records. *)
Theorem channel_receives_selected_pairs :
  Forall returns_bool fns →
  ∃ (reads : list (Alignment * Alignment))
    (result : list ((string * string) * nat)),
    (build_pairs dict_values bam aln_list max_read_pairs).2
      = Ok (slots_of <$> reads)
    ∧ run.2 = Ok result
    ∧ ∀ (k : nat) (fn : ExtractFn),
        fns !! k = Some fn →
        ∃ e : file * file,
          output_files prefix fns !! k = Some e
          ∧ written_to e.1 run.1
            = (fun ab => read_record ab.1)
                <$> filter (fun ab => selects fn ab = true) reads
          ∧ written_to e.2 run.1
            = (fun ab => read_record ab.2)
                <$> filter (fun ab => selects fn ab = true) reads
          ∧ result !! k
            = Some (output_names prefix fn,
                    length (filter (fun ab => selects fn ab = true) reads)).
Proof.
  intros Hfns. subst run.
  destruct (run_completes int Samfile dict_values dict_values_perm
              bamname region prefix fns pad max_read_pairs chrom start stop
              bam alns region_ok bam_ok fetch_ok mate_ok Hfns)
    as (t & reads & Hbuild & _ & Hw & _ & _ & ->).
  exists reads. eexists. split; [done|]. split; [reflexivity|].
  intros k fn Hk.
  destruct (output_files_lookup prefix fns k fn Hk) as (e & He & Hch & _).
  exists e. split; [done|]. cbn [fst snd].
  assert (Hnd : NoDup (files_of (zip (output_files prefix fns) fns).*1)).
  { rewrite zip_fst_same_length by apply length_output_files_from.
    apply output_files_NoDup. }
  destruct (open_events_projections (output_files prefix fns)) as (Ho1 & _).
  destruct (close_events_projections (output_files prefix fns)) as (Hc1 & _).
  rewrite !written_to_app.
  rewrite (written_to_no_writes _ t), (written_to_no_writes _ (open_events _)),
    (written_to_no_writes _ (close_events _)) by done.
  rewrite (written_to_no_writes _ t), (written_to_no_writes _ (open_events _)),
    (written_to_no_writes _ (close_events _)) by done.
  rewrite !written_to_bind. cbn [app]. rewrite !app_nil_r.
  destruct (selected_reads_records fn _ k e reads Hnd Hch) as [-> ->].
  split; [done|]. split; [done|].
  by rewrite list_lookup_fmap, Hk.
Qed.

End Written.

(** ** The order of the events of a run *)

Lemma pair_writes_to_channels (chs : list ((file * file) * ExtractFn))
    (reads : list (Alignment * Alignment)) :
  Forall (write_to_one_of (files_of chs.*1)) (reads ≫= pair_writes chs).
Proof.
  apply Forall_forall. intros ev Hev.
  apply list_elem_of_bind in Hev as (ab & Hev & _).
  unfold pair_writes in Hev.
  apply list_elem_of_bind in Hev as ([e fn] & Hev & Hch).
  assert (He : e.1 ∈ files_of chs.*1 ∧ e.2 ∈ files_of chs.*1).
  { unfold files_of. split; apply list_elem_of_bind; exists e;
      (split; [set_solver|]); apply list_elem_of_fmap; by exists (e, fn). }
  unfold channel_writes in Hev. cbn [fst snd] in Hev.
  destruct (selects fn ab); [|by apply elem_of_nil in Hev].
  apply elem_of_cons in Hev as [->|Hev]; [cbn; tauto|].
  apply list_elem_of_singleton in Hev as ->. cbn. tauto.
Qed.

Lemma mate_events_reading (l : list Alignment) :
  Forall reading_event (EvMate <$> l).
Proof. induction l; by constructor. Qed.

Section Protocol.

Variable int : string → res Z.
Variable Samfile : string → res Bam.
Variable dict_values : gmap string slots → list slots.
Hypothesis dict_values_perm :
  ∀ d : gmap string slots, dict_values d ≡ₚ (map_to_list d).*2.

Variables (bamname region prefix : string) (fns : list ExtractFn).
Variables (pad max_read_pairs : Z).
Variables (chrom : string) (start stop : Z) (bam : Bam).
Variable alns : list Alignment.

Hypothesis region_ok :
  region_bounds int region pad = Ok (chrom, (start - pad)%Z, (stop + pad)%Z).
Hypothesis bam_ok : Samfile bamname = Ok bam.
Hypothesis fetch_ok :
  (0 ≤ start - pad)%Z →
  bam_fetch bam chrom (start - pad)%Z (stop + pad)%Z = Ok alns.
Hypothesis mate_ok : mate_raises_only_ValueError bam.

Let run : M (list ((string * string) * nat)) :=
  extract_read_pairs int Samfile dict_values bamname region prefix fns pad
                     max_read_pairs.

(** X22. A run that is not aborted opens the alignment file once, reads
    from it, and closes it before it opens any output file; then all
    output files are opened, all records are written through these files,
    all the files are closed, and only log entries follow. *)
Theorem run_closes_input_before_output :
  Forall returns_bool fns →
  ∃ reading writing logging : list event,
    run.1 =
      [EvLog INFO (MsgExtracting bamname region pad (fn_name <$> fns));
       EvSamfile bamname]
      ++ reading ++ [EvBamClose]
      ++ open_events (output_files prefix fns)
      ++ writing
      ++ close_events (output_files prefix fns)
      ++ logging
    ∧ Forall reading_event reading
    ∧ Forall (write_to_one_of (files_of (output_files prefix fns))) writing
    ∧ Forall log_event logging.
Proof.
  intros Hfns. subst run.
  rewrite (extract_read_pairs_stages int Samfile dict_values _ _ _ _ _ _
             _ _ _ _ region_ok bam_ok).
  assert (Hread : ∃ t aln_list,
             read_region bam chrom (start - pad)%Z (stop + pad)%Z
               = (t, Ok aln_list)
             ∧ Forall reading_event t).
  { destruct (Z.lt_ge_cases (start - pad) 0) as [Hneg|Hpos].
    - rewrite read_region_negative by done.
      eexists _, _. split; [done|]. by repeat constructor.
    - rewrite (read_region_fetch _ _ _ _ alns) by auto.
      eexists _, _. split; [done|]. by repeat constructor. }
  destruct Hread as (t & aln_list & -> & Ht). run_step.
  assert (Hbuild : ∃ t' reads,
             build_pairs dict_values bam aln_list max_read_pairs
               = (t', Ok (slots_of <$> reads))
             ∧ Forall reading_event t').
  { destruct (Z.le_gt_cases (Z.of_nat (length (distinct_qnames aln_list)))
                max_read_pairs) as [Hmax|Hmax].
    - rewrite (build_pairs_run dict_values dict_values_perm) by done.
      destruct (both_filled_reads _
                  (resolved_pair_filled bam
                     (dict_values (group_by_qname aln_list)))) as [reads ->].
      eexists _, reads. split; [done|].
      constructor; [done|apply mate_events_reading].
    - rewrite (build_pairs_too_many dict_values) by lia.
      eexists _, []. split; [done|]. by repeat constructor. }
  destruct Hbuild as (t' & reads & -> & Ht'). run_step.
  rewrite write_pairs_run by done. rewrite !after_after, after_pair.
  cbn [fst].
  exists (t ++ t'), (reads ≫= pair_writes (zip (output_files prefix fns) fns)).
  eexists. split; [by rewrite <- !app_assoc|].
  split; [by apply Forall_app|]. split; [|by repeat constructor].
  rewrite <- (zip_fst_same_length (output_files prefix fns) fns) at 1
    by apply length_output_files_from.
  apply pair_writes_to_channels.
Qed.

End Protocol.

(** ** The command line *)

Lemma non_perfect_fn_returns_bool : returns_bool non_perfect_fn.
Proof.
  intros a b. cbn. unfold non_perfect, py_not, py_and, cigarstring_is. cbn.
  repeat case_bool_decide; cbn; destruct (is_proper_pair a); cbn; eauto.
Qed.

Lemma main_extract_fn_returns_bool (args : Args) :
  returns_bool (main_extract_fn args).
Proof.
  unfold main_extract_fn. repeat case_bool_decide.
  - apply all_pair_fn_returns_bool.
  - apply non_perfect_fn_returns_bool.
  - apply discordant_fn_returns_bool.
Qed.

Lemma main_extract_fn_name (args : Args) :
  args_extract_fn args ∈ ["all_pair"; "non_perfect"; "discordant"] →
  fn_name (main_extract_fn args) = args_extract_fn args.
Proof.
  intros Hin. unfold main_extract_fn.
  repeat case_bool_decide; cbn; try done. set_solver.
Qed.

(** X23. Run with one of the three choices of [--extract_fn], the script
    creates the two files named after the prefix and the choice, opening
    and closing each once, and ends without an exception when the
    extraction is not aborted. *)
Theorem main_creates_files_of_choice
    (int : string → res Z) (Samfile : string → res Bam)
    (dict_values : gmap string slots → list slots) (args : Args)
    (chrom : string) (start stop : Z) (bam : Bam) (alns : list Alignment) :
  (∀ d : gmap string slots, dict_values d ≡ₚ (map_to_list d).*2) →
  args_extract_fn args ∈ ["all_pair"; "non_perfect"; "discordant"] →
  region_bounds int (args_region args) (args_pad args)
    = Ok (chrom, (start - args_pad args)%Z, (stop + args_pad args)%Z) →
  Samfile (args_bam args) = Ok bam →
  ((0 ≤ start - args_pad args)%Z →
   bam_fetch bam chrom (start - args_pad args)%Z (stop + args_pad args)%Z
     = Ok alns) →
  mate_raises_only_ValueError bam →
  let end1 := {| file_id := 0;
                 file_name := args_prefix args +:+ "_"
                              +:+ args_extract_fn args +:+ "_1.fq" |} in
  let end2 := {| file_id := 1;
                 file_name := args_prefix args +:+ "_"
                              +:+ args_extract_fn args +:+ "_2.fq" |} in
  ∃ tr : list event,
    main int Samfile dict_values args = (tr, Ok tt)
    ∧ opened tr = [end1; end2]
    ∧ closed tr = [end1; end2].
Proof.
  intros Hperm Hchoice Hregion Hbam Hfetch Hmate end1 end2. unfold main.
  destruct (run_completes int Samfile dict_values Hperm
              (args_bam args) (args_region args) (args_prefix args)
              [main_extract_fn args] (args_pad args) (args_max_read_pairs args)
              chrom start stop bam alns Hregion Hbam Hfetch Hmate)
    as (t & reads & _ & _ & Hw & Ho & Hc & ->).
  { repeat constructor. apply main_extract_fn_returns_bool. }
  run_step. unfold after, mret, M_ret. cbn [fst snd]. rewrite app_nil_r.
  eexists. split; [reflexivity|].
  destruct (pair_writes_projections
              (zip (output_files (args_prefix args) [main_extract_fn args])
                   [main_extract_fn args]) reads) as (Hpo & Hpc & _).
  rewrite !opened_app, !closed_app, Ho, Hc, Hpo, Hpc.
  unfold output_files, output_files_from, output_names, fq_name. cbn.
  rewrite (main_extract_fn_name args Hchoice). done.
Qed.

(** ** The names of the output files *)

Lemma list_ascii_of_string_append (a b : string) :
  list_ascii_of_string (a +:+ b)
    = list_ascii_of_string a ++ list_ascii_of_string b.
Proof.
  induction a as [|c a IH]; [done|].
  change (String c a +:+ b) with (String c (a +:+ b)). cbn. by rewrite IH.
Qed.

Lemma list_ascii_of_string_inj (a b : string) :
  list_ascii_of_string a = list_ascii_of_string b → a = b.
Proof.
  intros H. rewrite <- (string_of_list_ascii_of_string a),
    <- (string_of_list_ascii_of_string b). by rewrite H.
Qed.

Lemma fq_name_suffixes (prefix name name' suffix suffix' : string) :
  String.length suffix = String.length suffix' →
  fq_name prefix name suffix = fq_name prefix name' suffix' →
  name = name' ∧ suffix = suffix'.
Proof.
  intros Hlen Heq. unfold fq_name in Heq.
  apply (f_equal list_ascii_of_string) in Heq.
  rewrite !list_ascii_of_string_append in Heq.
  apply app_inv_head in Heq. cbn [list_ascii_of_string app] in Heq.
  injection Heq as Heq. apply app_inj_2 in Heq as [Hn Hs].
  - split; by apply list_ascii_of_string_inj.
  - by rewrite !length_list_ascii_of_string.
Qed.

(** X24. Two extraction functions write to the same first-end file, and
    to the same second-end file, exactly when they bear the same name, as
    two [partial] applications of [discordant] do; and no first-end file is
    the second-end file of any function. *)
Theorem output_names_collide_iff_same_name (prefix : string) (fn fn' : ExtractFn) :
  ((output_names prefix fn).1 = (output_names prefix fn').1
   ↔ fn_name fn = fn_name fn')
  ∧ ((output_names prefix fn).2 = (output_names prefix fn').2
     ↔ fn_name fn = fn_name fn')
  ∧ (output_names prefix fn).1 ≠ (output_names prefix fn').2.
Proof.
  unfold output_names. cbn [fst snd]. split; [|split].
  - split; [|by intros ->].
    intros Heq. by apply fq_name_suffixes in Heq as [? _].
  - split; [|by intros ->].
    intros Heq. by apply fq_name_suffixes in Heq as [? _].
  - intros Heq. by apply fq_name_suffixes in Heq as [_ ?].
Qed.

(** ** The sample file, continued *)

(** The ninth record of the sample run is the record of [zero_1], the
    mate looked up for [zero_2]. *)
Lemma written_records_origin_witness :
  ∃ x : Alignment,
    read_record zero_1 = read_record x
    ∧ ((x ∈ sample_alns ∧ is_secondary x = false)
       ∨ ∃ a : Alignment,
           a ∈ sample_alns ∧ is_secondary a = false
           ∧ bam_mate sample_bam a = Ok x).
Proof.
  apply (written_records_origin sample_int sample_Samfile sample_dict_values
           sample_dict_values_perm "sample.bam" "chr1:100-200" "out"
           sample_fns 0 10 "chr1" 100 200 sample_bam sample_alns
           (sample_region_ok 0) sample_bam_ok (sample_fetch_ok _ _)
           sample_mate_raises_only_ValueError
           {| file_id := 2; file_name := "out_all_pair_1.fq" |}).
  apply (list_elem_of_lookup_2 _ 8). vm_compute. reflexivity.
Defined.

Lemma channel_receives_selected_pairs_witness :
  ∃ (reads : list (Alignment * Alignment)) (e : file * file),
    output_files "out" sample_fns !! 0 = Some e
    ∧ written_to e.1 (sample_run 0 10).1
      = (fun ab => read_record ab.1)
          <$> filter (fun ab => selects (discordant_fn 300 400) ab = true) reads
    ∧ written_to e.2 (sample_run 0 10).1
      = (fun ab => read_record ab.2)
          <$> filter (fun ab => selects (discordant_fn 300 400) ab = true) reads.
Proof.
  destruct (channel_receives_selected_pairs sample_int sample_Samfile
              sample_dict_values sample_dict_values_perm
              "sample.bam" "chr1:100-200" "out" sample_fns 0 10
              "chr1" 100 200 sample_bam sample_alns
              (sample_region_ok 0) sample_bam_ok (sample_fetch_ok _ _)
              sample_mate_raises_only_ValueError sample_fns_return_bool)
    as (reads & result & _ & _ & Hall).
  destruct (Hall 0 (discordant_fn 300 400)) as (e & He & H1 & H2 & _);
    [reflexivity|].
  exists reads, e. auto.
Defined.

Lemma run_closes_input_before_output_witness :
  ∃ reading writing logging : list event,
    (sample_run 0 10).1 =
      [EvLog INFO (MsgExtracting "sample.bam" "chr1:100-200" 0
                     (fn_name <$> sample_fns));
       EvSamfile "sample.bam"]
      ++ reading ++ [EvBamClose]
      ++ open_events (output_files "out" sample_fns)
      ++ writing
      ++ close_events (output_files "out" sample_fns)
      ++ logging.
Proof.
  destruct (run_closes_input_before_output sample_int sample_Samfile
              sample_dict_values sample_dict_values_perm
              "sample.bam" "chr1:100-200" "out" sample_fns 0 10
              "chr1" 100 200 sample_bam sample_alns
              (sample_region_ok 0) sample_bam_ok (sample_fetch_ok _ _)
              sample_mate_raises_only_ValueError sample_fns_return_bool)
    as (reading & writing & logging & Hrun & _).
  exists reading, writing, logging. exact Hrun.
Defined.

Lemma main_creates_files_of_choice_witness :
  ∃ tr : list event,
    main sample_int sample_Samfile sample_dict_values sample_args = (tr, Ok tt)
    ∧ opened tr = [ {| file_id := 0; file_name := "out_discordant_1.fq" |};
                    {| file_id := 1; file_name := "out_discordant_2.fq" |} ]
    ∧ closed tr = [ {| file_id := 0; file_name := "out_discordant_1.fq" |};
                    {| file_id := 1; file_name := "out_discordant_2.fq" |} ].
Proof.
  apply (main_creates_files_of_choice sample_int sample_Samfile
           sample_dict_values sample_args "chr1" 100 200 sample_bam sample_alns
           sample_dict_values_perm).
  - apply (list_elem_of_lookup_2 _ 2). reflexivity.
  - reflexivity.
  - reflexivity.
  - intros _. reflexivity.
  - apply sample_mate_raises_only_ValueError.
Defined.

(** Two windows of [discordant] share their files. *)
Lemma output_names_collide_iff_same_name_witness :
  (output_names "out" (discordant_fn 300 400)).1
    = (output_names "out" (discordant_fn 200 500)).1.
Proof.
  apply (proj1 (output_names_collide_iff_same_name "out"
                  (discordant_fn 300 400) (discordant_fn 200 500))).
  reflexivity.
Defined.
